(** * python-mip, [mip/entities.py]: linear expressions, variable handles and
    the conflict graph.

    The development is a shallow embedding of the Python classes [Column],
    [LinExpr], [Var] and [ConflictGraph].  Python objects live in a heap addressed by
    locations, so that two names for one dictionary are two copies of one
    location; methods are computations in a reader/state/exception monad.

    Numbers: [numbers.Real] values are modelled by exact rationals [Q]
    (what the code computes on [int] and [fractions.Fraction] operands);
    rounding of binary floating point is outside the model. *)

From Stdlib Require Import QArith Qabs Qminmax Lqa ZArith List String.
From stdpp Require Import base list strings.

Local Open Scope Q_scope.

(* ================================================================== *)
(** * Python values *)
(* ================================================================== *)

(** Heap addresses of mutable objects. *)
Definition loc := nat.

(** [class Var]: [__slots__ = ["__model", "idx"]].  The owning model is
    kept as a model identifier. *)
Record Var := mkVar { __model : nat; idx : Z }.

(** Keys of a dictionary.  [Var.__hash__] returns [self.idx], and a model
    makes one handle per variable, so two handles met in one mapping are
    the same key exactly when their indices agree: keys are compared by
    [idx].  (Two distinct handle objects with one index are outside the
    model; [Var.__eq__] answers with a [LinExpr], not with a truth
    value.)

    A value of type [Var] stands for one handle object.  A dictionary of
    the code finds a key by its hash and by identity; when it meets a
    stored key with the hash of the key looked up that is another object,
    it calls [Var.__eq__], which builds [LinExpr([self, other], [1, -1])],
    whose second [add_var] looks the same key up again, without end
    ([RecursionError]).  The comparison by [idx] is what the code does
    where that call is not made, that is between [distinguishable]
    handles (defined with the specifications): one handle, or two with
    different hashes. *)
Definition Var_key_eqb (a b : Var) : bool := (idx a =? idx b)%Z.

(** The builtin [hash] on the integer that a [__hash__] method returns
    (CPython, 64-bit): an integer that fits a machine word is its own
    hash, a larger one is reduced modulo [2^61 - 1] with its sign, and
    [-1], the error marker of the C interface, becomes [-2]. *)
Definition py_hash (n : Z) : Z :=
  let h := if ((- 2 ^ 63 <=? n) && (n <? 2 ^ 63))%Z then n
           else (Z.sgn n * (Z.abs n mod (2 ^ 61 - 1)))%Z in
  if (h =? -1)%Z then (-2)%Z else h.

(** The values that reach the operators of this file. *)
Inductive pyval :=
| PyVar (v : Var)
| PyLinExpr (l : loc)
| PyReal (q : Q)
| PyStr (s : string)
| PyNone.

(** The classes tested by [isinstance]. *)
Inductive pytype := TVar | TLinExpr | TReal | TStr | TNoneType.

Definition type_of (v : pyval) : pytype :=
  match v with
  | PyVar _ => TVar
  | PyLinExpr _ => TLinExpr
  | PyReal _ => TReal
  | PyStr _ => TStr
  | PyNone => TNoneType
  end.

Definition pytype_eqb (a b : pytype) : bool :=
  match a, b with
  | TVar, TVar | TLinExpr, TLinExpr | TReal, TReal
  | TStr, TStr | TNoneType, TNoneType => true
  | _, _ => false
  end.

(** The second argument of [isinstance]: a class, a tuple of classes, or
    (as written in [ConflictGraph]) a list of classes. *)
Inductive classinfo :=
| CI_class (t : pytype)
| CI_tuple (ts : list pytype)
| CI_list (ts : list pytype).

Inductive exn :=
| TypeError | ValueError | IndexError | KeyError | AttributeError | RuntimeError.

Inductive result (A : Type) :=
| Ok (a : A)
| Raise (e : exn).
Arguments Ok {A} a.
Arguments Raise {A} e.

(** [isinstance(obj, classinfo)].  CPython accepts a type or a tuple of
    types; for anything else, a list included, it raises [TypeError]
    ("isinstance() arg 2 must be a type, a tuple of types, or a union"). *)
Definition isinstance (v : pyval) (ci : classinfo) : result bool :=
  match ci with
  | CI_class t => Ok (pytype_eqb (type_of v) t)
  | CI_tuple ts => Ok (existsb (pytype_eqb (type_of v)) ts)
  | CI_list _ => Raise TypeError
  end.

(** Comparisons and builtins on numbers. *)
Definition Qlt_bool (a b : Q) : bool := negb (Qle_bool b a).

(** [max(a, b)]: the first argument is kept unless the second is strictly
    greater. *)
Definition py_max (a b : Q) : Q := if Qlt_bool a b then b else a.

(** The literal [1e-12]: the binary64 number it denotes,
    [4951760157141521 * 2^-92], a little below [10^-12].  Python compares
    an [int] or a [Fraction] with a [float] exactly, so this is the bound
    the comparisons of the code are made with. *)
Definition tol : Q := 4951760157141521 # 4951760157141521099596496896.

(* ================================================================== *)
(** * Dictionaries *)
(* ================================================================== *)

(** A [dict] is the list of its items in insertion order; keys are compared
    with [keq].  Assigning to a present key keeps its position and its key
    object; a new key goes last. *)
Section PyDict.
Context {K V : Type} (keq : K -> K -> bool).

Fixpoint dict_get (d : list (K * V)) (k : K) : option V :=
  match d with
  | [] => None
  | (k', v) :: r => if keq k' k then Some v else dict_get r k
  end.

Definition dict_contains (d : list (K * V)) (k : K) : bool :=
  match dict_get d k with Some _ => true | None => false end.

Fixpoint dict_set (d : list (K * V)) (k : K) (v : V) : list (K * V) :=
  match d with
  | [] => [(k, v)]
  | (k', v') :: r =>
      if keq k' k then (k', v) :: r else (k', v') :: dict_set r k v
  end.

Fixpoint dict_del (d : list (K * V)) (k : K) : list (K * V) :=
  match d with
  | [] => []
  | (k', v') :: r => if keq k' k then r else (k', v') :: dict_del r k
  end.
End PyDict.

(** The coefficient mapping of an expression, [Dict[Var, Real]]. *)
Definition coeffs_dict := list (Var * Q).

(* ================================================================== *)
(** * Heap, solver and the monad of methods *)
(* ================================================================== *)

(** [class LinExpr]: [__slots__ = ["__const", "__expr", "__sense"]].  The
    mapping is held by reference. *)
Record LinExprObj := mkLinExpr { __const : Q; __expr : loc; __sense : string }.

Inductive object :=
| ODict (d : coeffs_dict)
| OLinExpr (o : LinExprObj).

(** The solver behind a model is opaque; the methods of this file use two of
    its entry points. *)
Record Solver := mkSolver {
  var_get_x : Var -> option Q;
  solver_conflicting : pyval -> pyval -> bool
}.

Inductive solver_call :=
| Call_var_get_x (v : Var)
| Call_conflicting (e1 e2 : pyval).

(** What a method reads but never writes.  [mip.EPS] is defined in
    [mip/constants.py]; it is a parameter here. *)
Record Env := mkEnv {
  EPS : Q;
  solver_of : nat -> Solver
}.

(** The heap and the trace of calls made to solvers, latest first. *)
Record State := mkState {
  heap : list object;
  calls : list solver_call
}.

Definition M (A : Type) : Type := Env -> State -> result A * State.

Definition ret {A} (a : A) : M A := fun _ s => (Ok a, s).

Definition raise {A} (e : exn) : M A := fun _ s => (Raise e, s).

Definition bind {A B} (m : M A) (f : A -> M B) : M B :=
  fun E s =>
    match m E s with
    | (Ok a, s') => f a E s'
    | (Raise e, s') => (Raise e, s')
    end.

Declare Scope py_scope.
Delimit Scope py_scope with py.
Notation "x <- m ;; k" := (bind m (fun x => k))
  (at level 100, m at next level, right associativity) : py_scope.
Notation "m ;;; k" := (bind m (fun _ => k))
  (at level 100, right associativity) : py_scope.
Local Open Scope py_scope.

Definition lift {A} (r : result A) : M A := fun _ s => (r, s).

Definition ask : M Env := fun E s => (Ok E, s).

Definition set_heap (s : State) (h : list object) : State :=
  {| heap := h; calls := calls s |}.

(** Object creation: the new object gets the next free address. *)
Definition alloc (x : object) : M loc :=
  fun _ s => (Ok (length (heap s)), set_heap s (heap s ++ [x])).

(** Reading and writing the slots of a [LinExpr]. *)
Definition get_obj (l : loc) : M LinExprObj :=
  fun _ s =>
    match heap s !! l with
    | Some (OLinExpr o) => (Ok o, s)
    | _ => (Raise AttributeError, s)
    end.

Definition set_obj (l : loc) (o : LinExprObj) : M unit :=
  fun _ s =>
    match heap s !! l with
    | Some (OLinExpr _) => (Ok tt, set_heap s (<[l := OLinExpr o]> (heap s)))
    | _ => (Raise AttributeError, s)
    end.

(** Reading and writing a dictionary object. *)
Definition read_dict (r : loc) : M coeffs_dict :=
  fun _ s =>
    match heap s !! r with
    | Some (ODict d) => (Ok d, s)
    | _ => (Raise TypeError, s)
    end.

Definition write_dict (r : loc) (d : coeffs_dict) : M unit :=
  fun _ s =>
    match heap s !! r with
    | Some (ODict _) => (Ok tt, set_heap s (<[r := ODict d]> (heap s)))
    | _ => (Raise TypeError, s)
    end.

(** [k in d], [d[k]], [d[k] = v], [del d[k]], [len(d)], [d.copy()]. *)
Definition dict_contains_ (r : loc) (k : Var) : M bool :=
  d <- read_dict r ;; ret (dict_contains Var_key_eqb d k).

Definition dict_getitem (r : loc) (k : Var) : M Q :=
  d <- read_dict r ;;
  match dict_get Var_key_eqb d k with
  | Some v => ret v
  | None => raise KeyError
  end.

Definition dict_setitem (r : loc) (k : Var) (v : Q) : M unit :=
  d <- read_dict r ;; write_dict r (dict_set Var_key_eqb d k v).

Definition dict_delitem (r : loc) (k : Var) : M unit :=
  d <- read_dict r ;;
  if dict_contains Var_key_eqb d k
  then write_dict r (dict_del Var_key_eqb d k)
  else raise KeyError.

Definition dict_len (r : loc) : M nat :=
  d <- read_dict r ;; ret (length d).

Definition dict_copy (r : loc) : M loc :=
  d <- read_dict r ;; alloc (ODict d).

(** [for k, v in d.items(): body]: the items are visited in insertion
    order; resizing the dictionary inside the loop makes the iterator raise
    [RuntimeError] the next time it is asked for an item. *)
Fixpoint iter_items (r : loc) (n : nat) (its : coeffs_dict)
    (body : Var -> Q -> M unit) : M unit :=
  m <- dict_len r ;;
  if negb (m =? n)%nat then raise RuntimeError
  else
    match its with
    | [] => ret tt
    | (k, v) :: rest => body k v ;;; iter_items r n rest body
    end.

Definition for_items (r : loc) (body : Var -> Q -> M unit) : M unit :=
  d <- read_dict r ;; iter_items r (length d) d body.

(** [for a in l: body]. *)
Fixpoint for_ {A} (l : list A) (body : A -> M unit) : M unit :=
  match l with
  | [] => ret tt
  | a :: rest => body a ;;; for_ rest body
  end.

(** [l[i]] on a list. *)
Definition list_getitem {A} (l : list A) (i : nat) : M A :=
  match l !! i with
  | Some a => ret a
  | None => raise IndexError
  end.

(* ================================================================== *)
(** * [class Var]: the properties delegated to the solver *)
(* ================================================================== *)

(** [Var.x]: [return self.__model.solver.var_get_x(self)]; [None] when no
    solution is available. *)
Definition Var_x (self : Var) : M (option Q) :=
  fun E s =>
    (Ok (var_get_x (solver_of E (__model self)) self),
     {| heap := heap s; calls := Call_var_get_x self :: calls s |}).

(** [Var.model]: [return self.__model]. *)
Definition Var_model (self : Var) : nat := __model self.

(** [coef * var.x] in [LinExpr.violation]: a number times [None] raises
    [TypeError]. *)
Definition mul_real_optional (coef : Q) (x : option Q) : M Q :=
  match x with
  | Some vx => ret (coef * vx)
  | None => raise TypeError
  end.

(** [d.keys()] is a view of type [dict_keys], which has no [__getitem__]:
    subscripting it raises [TypeError]. *)
Inductive dict_keys := DictKeys (r : loc).

Definition dict_keys_getitem (ks : dict_keys) (i : Z) : M Var :=
  raise TypeError.

(* ================================================================== *)
(** * [class Column] *)
(* ================================================================== *)

Module Column.

(** [__slots__ = ["constrs", "coeffs"]]; both default to [None].  A
    constraint handle is kept as its index. *)
Record Column := mkColumn {
  constrs : option (list Z);
  coeffs : option (list Q)
}.

Definition __init__ (constrs : option (list Z)) (coeffs : option (list Q))
    : Column :=
  mkColumn constrs coeffs.

(** [__str__(self)].  [fmt] is [str] on a number and [name] gives the name
    of a constraint ([Constr.name], asked of the solver).  [len(None)] and
    [None[k]] raise [TypeError]; an index out of range raises
    [IndexError]. *)
Fixpoint str_loop (fmt : Q -> string) (name : Z -> string)
    (cs : list Z) (co : option (list Q)) (ks : list nat) (res : string)
    : result string :=
  match ks with
  | [] => Ok res
  | k :: rest =>
      match co with
      | None => Raise TypeError
      | Some l =>
          match l !! k with
          | None => Raise IndexError
          | Some c =>
              match cs !! k with
              | None => Raise IndexError
              | Some cn =>
                  let res := (res ++ (fmt c ++ " " ++ name cn))%string in
                  let res :=
                    if (k <? length cs - 1)%nat then (res ++ ", ")%string
                    else res in
                  str_loop fmt name cs co rest res
              end
          end
      end
  end.

Definition __str__ (fmt : Q -> string) (name : Z -> string) (self : Column)
    : result string :=
  match constrs self with
  | None => Raise TypeError
  | Some cs =>
      match str_loop fmt name cs (coeffs self) (seq 0 (length cs)) "[" with
      | Ok res => Ok (res ++ "]")%string
      | Raise e => Raise e
      end
  end.

End Column.

(* ================================================================== *)
(** * [class LinExpr] *)
(* ================================================================== *)

Module LinExpr.

(** The properties [const], [expr] and [sense].  [expr] returns
    [self.__expr], the mapping object itself. *)
Definition const (self : loc) : M Q :=
  o <- get_obj self ;; ret (__const o).

Definition expr (self : loc) : M loc :=
  o <- get_obj self ;; ret (__expr o).

Definition sense (self : loc) : M string :=
  o <- get_obj self ;; ret (__sense o).

Definition set_sense (self : loc) (value : string) : M unit :=
  o <- get_obj self ;;
  set_obj self (mkLinExpr (__const o) (__expr o) value).

(** [add_var(self, var, coeff=1)]. *)
Definition add_var (self : loc) (var : Var) (coeff : Q) : M unit :=
  o <- get_obj self ;;
  present <- dict_contains_ (__expr o) var ;;
  if present then
    E <- ask ;;
    old <- dict_getitem (__expr o) var ;;
    if Qle_bool (- EPS E) (old + coeff) && Qle_bool (old + coeff) (EPS E)
    then dict_delitem (__expr o) var
    else
      cur <- dict_getitem (__expr o) var ;;
      dict_setitem (__expr o) var (cur + coeff)
  else dict_setitem (__expr o) var coeff.

(** [add_const(self, val)]: [self.__const += val]. *)
Definition add_const (self : loc) (val : Q) : M unit :=
  o <- get_obj self ;;
  set_obj self (mkLinExpr (__const o + val) (__expr o) (__sense o)).

(** [add_expr(self, expr, coeff=1)]. *)
Definition add_expr (self : loc) (e : loc) (coeff : Q) : M unit :=
  o <- get_obj self ;;
  c <- const e ;;
  set_obj self (mkLinExpr (__const o + c * coeff) (__expr o) (__sense o)) ;;;
  r <- expr e ;;
  for_items r (fun var coeff_var => add_var self var (coeff_var * coeff)).

(** [__init__(self, variables=[], coeffs=[], const=0.0, sense="")].  The
    mapping [{}] and the instance are created, then the terms are added. *)
Definition __init__ (variables : list Var) (coeffs : list Q)
    (const : Q) (sense : string) : M loc :=
  d <- alloc (ODict []) ;;
  self <- alloc (OLinExpr (mkLinExpr const d sense)) ;;
  (match variables with
   | [] => ret tt
   | _ :: _ =>
       if negb (length variables =? length coeffs)%nat
       then raise ValueError
       else
         for_ (seq 0 (length coeffs)) (fun i =>
           c <- list_getitem coeffs i ;;
           if Qle_bool (Qabs c) tol then ret tt
           else
             v <- list_getitem variables i ;;
             c' <- list_getitem coeffs i ;;
             add_var self v c')
   end) ;;;
  ret self.

(** [copy(self)]: a new instance from [LinExpr()], whose three slots are
    then overwritten; [self.__expr.copy()] is a new dictionary. *)
Definition copy (self : loc) : M loc :=
  cp <- __init__ [] [] 0 "" ;;
  o <- get_obj self ;;
  c0 <- get_obj cp ;;
  set_obj cp (mkLinExpr (__const o) (__expr c0) (__sense c0)) ;;;
  d <- dict_copy (__expr o) ;;
  c1 <- get_obj cp ;;
  set_obj cp (mkLinExpr (__const c1) d (__sense c1)) ;;;
  c2 <- get_obj cp ;;
  set_obj cp (mkLinExpr (__const c2) (__expr c2) (__sense o)) ;;;
  ret cp.

(** [__add__(self, other)]; the [isinstance] chain is the match on the
    class of [other]. *)
Definition __add__ (self : loc) (other : pyval) : M loc :=
  result <- copy self ;;
  (match other with
   | PyVar v => add_var result v 1
   | PyLinExpr e => add_expr result e 1
   | PyReal q => add_const result q
   | _ => raise TypeError
   end) ;;;
  ret result.

Definition __radd__ (self : loc) (other : pyval) : M loc :=
  __add__ self other.

(** [__sub__(self, other)]. *)
Definition __sub__ (self : loc) (other : pyval) : M loc :=
  result <- copy self ;;
  (match other with
   | PyVar v => add_var result v (-1)
   | PyLinExpr e => add_expr result e (-1)
   | PyReal q => add_const result (- q)
   | _ => raise TypeError
   end) ;;;
  ret result.

(** [__mul__(self, other)] and [__neg__]. *)
Fixpoint scale_keys (r : loc) (keys : list Var) (other : Q) : M unit :=
  match keys with
  | [] => ret tt
  | var :: rest =>
      cur <- dict_getitem r var ;;
      dict_setitem r var (cur * other) ;;;
      scale_keys r rest other
  end.

Definition __mul__ (self : loc) (other : pyval) : M loc :=
  match other with
  | PyReal q =>
      result <- copy self ;;
      o <- get_obj result ;;
      set_obj result (mkLinExpr (__const o * q) (__expr o) (__sense o)) ;;;
      d <- read_dict (__expr o) ;;
      scale_keys (__expr o) (map fst d) q ;;;
      ret result
  | _ => raise TypeError
  end.

Definition __neg__ (self : loc) : M loc := __mul__ self (PyReal (-1)).

(** The relational operators: [result = self - other], then the sense is
    set. *)
Definition __eq__ (self : loc) (other : pyval) : M loc :=
  result <- __sub__ self other ;; set_sense result "=" ;;; ret result.

Definition __le__ (self : loc) (other : pyval) : M loc :=
  result <- __sub__ self other ;; set_sense result "<" ;;; ret result.

Definition __ge__ (self : loc) (other : pyval) : M loc :=
  result <- __sub__ self other ;; set_sense result ">" ;;; ret result.

(** [equals(self, other)].  [other_contents] is a local dictionary keyed by
    [idx]. *)
Definition other_contents (its : coeffs_dict) : list (Z * Q) :=
  fold_left (fun acc it => dict_set Z.eqb acc (idx (fst it)) (snd it)) its [].

Fixpoint equals_loop (oc : list (Z * Q)) (its : coeffs_dict) : bool :=
  match its with
  | [] => true
  | (v, c) :: rest =>
      match dict_get Z.eqb oc (idx v) with
      | None => false
      | Some c' =>
          if Qlt_bool tol (Qabs (c - c')) then false else equals_loop oc rest
      end
  end.

Definition equals (self other : loc) : M bool :=
  so <- get_obj self ;;
  oo <- get_obj other ;;
  if negb (String.eqb (__sense so) (__sense oo)) then ret false
  else
    n1 <- dict_len (__expr so) ;;
    n2 <- dict_len (__expr oo) ;;
    if negb (n1 =? n2)%nat then ret false
    else if Qle_bool tol (Qabs (__const so - __const oo)) then ret false
    else
      od <- read_dict (__expr oo) ;;
      sd <- read_dict (__expr so) ;;
      ret (equals_loop (other_contents od) sd).

(** [violation]: [sum(coef * var.x for (var, coef) in self.__expr.items())]
    starts from [0] and adds the terms from left to right. *)
Fixpoint sum_terms (its : coeffs_dict) (acc : Q) : M Q :=
  match its with
  | [] => ret acc
  | (var, coef) :: rest =>
      vx <- Var_x var ;;
      t <- mul_real_optional coef vx ;;
      sum_terms rest (acc + t)
  end.

Definition violation (self : loc) : M Q :=
  o <- get_obj self ;;
  its <- read_dict (__expr o) ;;
  lhs <- sum_terms its 0 ;;
  c <- const self ;;
  let rhs := - c in
  sn <- sense self ;;
  if String.eqb sn "=" then ret (Qabs (lhs - rhs))
  else if String.eqb sn "<" then ret (py_max (lhs - rhs) 0)
  else if String.eqb sn ">" then ret (py_max (rhs - lhs) 0)
  else raise ValueError.

(** [x]: the value of the expression, [None] as soon as one variable has
    no value. *)
Fixpoint x_loop (its : coeffs_dict) (x : Q) : M (option Q) :=
  match its with
  | [] => ret (Some x)
  | (var, coef) :: rest =>
      var_x <- Var_x var ;;
      match var_x with
      | None => ret None
      | Some vx => x_loop rest (x + vx * coef)
      end
  end.

Definition x (self : loc) : M (option Q) :=
  o <- get_obj self ;;
  its <- read_dict (__expr o) ;;
  x_loop its (__const o).

(** [model]: [None] for an empty mapping, else
    [self.expr.keys()[0].model]. *)
Definition model (self : loc) : M (option nat) :=
  r <- expr self ;;
  d <- read_dict r ;;
  match d with
  | [] => ret None
  | _ :: _ =>
      r' <- expr self ;;
      k <- dict_keys_getitem (DictKeys r') 0 ;;
      ret (Some (Var_model k))
  end.

(** [__iadd__(self, other)] and [__isub__]: the receiver is changed and
    returned. *)
Definition __iadd__ (self : loc) (other : pyval) : M loc :=
  (match other with
   | PyVar v => add_var self v 1
   | PyLinExpr e => add_expr self e 1
   | PyReal q => add_const self q
   | _ => raise TypeError
   end) ;;;
  ret self.

Definition __isub__ (self : loc) (other : pyval) : M loc :=
  (match other with
   | PyVar v => add_var self v (-1)
   | PyLinExpr e => add_expr self e (-1)
   | PyReal q => add_const self (- q)
   | _ => raise TypeError
   end) ;;;
  ret self.

(** [__rsub__(self, other)]: [(-self).__add__(other)]. *)
Definition __rsub__ (self : loc) (other : pyval) : M loc :=
  n <- __neg__ self ;; __add__ n other.

Definition __rmul__ (self : loc) (other : pyval) : M loc :=
  __mul__ self other.

(** [__imul__(self, other)]. *)
Definition __imul__ (self : loc) (other : pyval) : M loc :=
  match other with
  | PyReal q =>
      o <- get_obj self ;;
      set_obj self (mkLinExpr (__const o * q) (__expr o) (__sense o)) ;;;
      d <- read_dict (__expr o) ;;
      scale_keys (__expr o) (map fst d) q ;;;
      ret self
  | _ => raise TypeError
  end.

(** [add_term(self, term, coeff=1)]; a number is added as it is. *)
Definition add_term (self : loc) (term : pyval) (coeff : Q) : M unit :=
  match term with
  | PyVar v => add_var self v coeff
  | PyLinExpr e => add_expr self e coeff
  | PyReal q => add_const self q
  | _ => raise TypeError
  end.

End LinExpr.

(* ================================================================== *)
(** * [class Var]: the operators *)
(* ================================================================== *)

Module Var.

Definition x := Var_x.

(** [__hash__(self)]: [return self.idx]. *)
Definition __hash__ (self : Var) : Z := idx self.

(** [__add__(self, other)]. *)
Definition __add__ (self : Var) (other : pyval) : M loc :=
  match other with
  | PyVar o => LinExpr.__init__ [self; o] [1; 1] 0 ""
  | PyLinExpr e => LinExpr.__add__ e (PyVar self)
  | PyReal q => LinExpr.__init__ [self] [1] q ""
  | _ => raise TypeError
  end.

(** [__mul__(self, other)] and [__rmul__]. *)
Definition __mul__ (self : Var) (other : pyval) : M loc :=
  match other with
  | PyReal q => LinExpr.__init__ [self] [q] 0 ""
  | _ => raise TypeError
  end.

Definition __rmul__ (self : Var) (other : pyval) : M loc :=
  __mul__ self other.

Definition __radd__ (self : Var) (other : pyval) : M loc :=
  __add__ self other.

(** [__sub__(self, other)], [__rsub__] and [__neg__]. *)
Definition __sub__ (self : Var) (other : pyval) : M loc :=
  match other with
  | PyVar o => LinExpr.__init__ [self; o] [1; -1] 0 ""
  | PyLinExpr e => n <- LinExpr.__neg__ e ;; LinExpr.__iadd__ n (PyVar self)
  | PyReal q => LinExpr.__init__ [self] [1] (- q) ""
  | _ => raise TypeError
  end.

Definition __rsub__ (self : Var) (other : pyval) : M loc :=
  match other with
  | PyVar o => LinExpr.__init__ [self; o] [-1; 1] 0 ""
  | PyLinExpr e => LinExpr.__sub__ e (PyVar self)
  | PyReal q => LinExpr.__init__ [self] [-1] q ""
  | _ => raise TypeError
  end.

Definition __neg__ (self : Var) : M loc :=
  LinExpr.__init__ [self] [-1] 0 "".

(** [__eq__], [__le__], [__ge__]: against a number the constant is
    [-1 * other], or the default [0.0] when [other] is zero; against an
    expression the comparison is handed to the expression, mirrored. *)
Definition __eq__ (self : Var) (other : pyval) : M loc :=
  match other with
  | PyVar o => LinExpr.__init__ [self; o] [1; -1] 0 "="
  | PyLinExpr e => LinExpr.__eq__ e (PyVar self)
  | PyReal q =>
      if negb (Qeq_bool q 0) then LinExpr.__init__ [self] [1] (-1 * q) "="
      else LinExpr.__init__ [self] [1] 0 "="
  | _ => raise TypeError
  end.

Definition __le__ (self : Var) (other : pyval) : M loc :=
  match other with
  | PyVar o => LinExpr.__init__ [self; o] [1; -1] 0 "<"
  | PyLinExpr e => LinExpr.__ge__ e (PyVar self)
  | PyReal q =>
      if negb (Qeq_bool q 0) then LinExpr.__init__ [self] [1] (-1 * q) "<"
      else LinExpr.__init__ [self] [1] 0 "<"
  | _ => raise TypeError
  end.

Definition __ge__ (self : Var) (other : pyval) : M loc :=
  match other with
  | PyVar o => LinExpr.__init__ [self; o] [1; -1] 0 ">"
  | PyLinExpr e => LinExpr.__le__ e (PyVar self)
  | PyReal q =>
      if negb (Qeq_bool q 0) then LinExpr.__init__ [self] [1] (-1 * q) ">"
      else LinExpr.__init__ [self] [1] 0 ">"
  | _ => raise TypeError
  end.

End Var.

(* ================================================================== *)
(** * [class ConflictGraph] *)
(* ================================================================== *)

Module ConflictGraph.

(** The solver's answer to [conflicting(e1, e2)], asked of the solver of
    model [m]. *)
Definition solver_call_conflicting (m : nat) (e1 e2 : pyval) : M bool :=
  fun E s =>
    (Ok (solver_conflicting (solver_of E m) e1 e2),
     {| heap := heap s; calls := Call_conflicting e1 e2 :: calls s |}).

(** [e1.model] for a [Var] is the bound method [Var.model]; for a [LinExpr]
    it is the property [LinExpr.model]. *)
Definition model_of (e : pyval) : M (option nat) :=
  match e with
  | PyVar v => ret (Some (Var_model v))
  | PyLinExpr l => LinExpr.model l
  | _ => raise AttributeError
  end.

(** [conflicting(self, e1, e2)]. *)
Definition conflicting (e1 e2 : pyval) : M bool :=
  b1 <- lift (isinstance e1 (CI_list [TLinExpr; TVar])) ;;
  if b1 : bool then raise TypeError
  else
    b2 <- lift (isinstance e2 (CI_list [TLinExpr; TVar])) ;;
    if b2 : bool then raise TypeError
    else
      m <- model_of e1 ;;
      match m with
      | Some mid => solver_call_conflicting mid e1 e2
      | None => raise AttributeError
      end.

(** [conflicting_assignments(self, v1)].  The solver's
    [conflicting_nodes], which the record [Solver] does not hold, is the
    argument [nodes]. *)
Definition conflicting_assignments
    (nodes : nat -> pyval -> list Var * list Var) (v1 : pyval)
    : M (list Var * list Var) :=
  b <- lift (isinstance v1 (CI_list [TLinExpr; TVar])) ;;
  if b : bool then raise TypeError
  else
    m <- model_of v1 ;;
    match m with
    | Some mid => ret (nodes mid v1)
    | None => raise AttributeError
    end.

End ConflictGraph.

(* ================================================================== *)
(** * Vocabulary of the specifications *)
(* ================================================================== *)

(** [m] returns normally from [s], and [P] holds of its value and of the
    state it leaves. *)
Definition returns {A} (m : M A) (E : Env) (s : State)
    (P : A -> State -> Prop) : Prop :=
  exists a s', m E s = (Ok a, s') /\ P a s'.

(** One cell of the heap is overwritten; new cells are appended. *)
Definition upd (s : State) (r : loc) (x : object) : State :=
  set_heap s (<[r := x]> (heap s)).

Definition grow (s : State) (cells : list object) : State :=
  set_heap s (heap s ++ cells).

(** [l] is a [LinExpr] with slots [o] whose mapping holds the items [d]. *)
Definition is_linexpr (s : State) (l : loc) (o : LinExprObj)
    (d : coeffs_dict) : Prop :=
  heap s !! l = Some (OLinExpr o) /\ heap s !! __expr o = Some (ODict d).

(** Every object of [s] is found unchanged in [s']. *)
Definition extends (s s' : State) : Prop :=
  forall l x, heap s !! l = Some x -> heap s' !! l = Some x.

(** [l] is a [LinExpr] created since [s], with constant [c], items [d] and
    sense [sn]; what existed in [s] is untouched. *)
Definition allocated (s s' : State) (l : loc) (c : Q) (d : coeffs_dict)
    (sn : string) : Prop :=
  extends s s' /\ calls s' = calls s /\ (length (heap s) <= l)%nat /\
  exists r, (length (heap s) <= r)%nat /\
            is_linexpr s' l (mkLinExpr c r sn) d.

(** What [add_var] leaves in the mapping. *)
Definition add_var_items (eps : Q) (d : coeffs_dict) (var : Var)
    (coeff : Q) : coeffs_dict :=
  match dict_get Var_key_eqb d var with
  | Some old =>
      if Qle_bool (- eps) (old + coeff) && Qle_bool (old + coeff) eps
      then dict_del Var_key_eqb d var
      else dict_set Var_key_eqb d var (old + coeff)
  | None => dict_set Var_key_eqb d var coeff
  end.

(** What the loop of the constructor leaves in the mapping. *)
Definition init_step (eps : Q) (acc : coeffs_dict) (vc : Var * Q)
    : coeffs_dict :=
  if Qle_bool (Qabs (snd vc)) tol then acc
  else add_var_items eps acc (fst vc) (snd vc).

Definition init_items (eps : Q) (variables : list Var) (coeffs : list Q)
    : coeffs_dict :=
  fold_left (init_step eps) (combine variables coeffs) [].

(** What the loop of [add_expr] leaves in the mapping. *)
Definition add_expr_items (eps : Q) (d de : coeffs_dict) (coeff : Q)
    : coeffs_dict :=
  fold_left (fun acc it => add_var_items eps acc (fst it) (snd it * coeff))
            de d.

(** The keys of a well-formed dictionary are pairwise different. *)
Definition keys_nodup (d : coeffs_dict) : Prop :=
  NoDup (map (fun it => idx (fst it)) d).

(** The value the solver reports for a variable. *)
Definition value_of (E : Env) (v : Var) : option Q :=
  var_get_x (solver_of E (__model v)) v.

Definition all_known (E : Env) (d : coeffs_dict) : Prop :=
  forall v c, In (v, c) d -> value_of E v <> None.

(** The violation as the specification words it:
    [lhs] is the sum of coefficient times value, [rhs = -const]. *)
Definition spec_lhs (E : Env) (d : coeffs_dict) : Q :=
  fold_right
    (fun it acc =>
       snd it * (match value_of E (fst it) with Some q => q | None => 0 end)
       + acc)
    0 d.

Definition spec_violation (E : Env) (o : LinExprObj) (d : coeffs_dict) : Q :=
  let lhs := spec_lhs E d in
  let rhs := - __const o in
  if String.eqb (__sense o) "=" then Qabs (lhs - rhs)
  else if String.eqb (__sense o) "<" then Qmax (lhs - rhs) 0
  else Qmax (rhs - lhs) 0.

(** The value of [x] on items [its] from the running total [acc]. *)
Fixpoint x_value (E : Env) (its : coeffs_dict) (acc : Q) : option Q :=
  match its with
  | [] => Some acc
  | (v, c) :: rest =>
      match value_of E v with
      | None => None
      | Some vx => x_value E rest (acc + vx * c)
      end
  end.

(** The answer of [equals] on two expressions given by slots and items. *)
Definition equals_value (o : LinExprObj) (d : coeffs_dict)
    (o' : LinExprObj) (d' : coeffs_dict) : bool :=
  if negb (String.eqb (__sense o) (__sense o')) then false
  else if negb (length d =? length d')%nat then false
  else if Qle_bool tol (Qabs (__const o - __const o')) then false
  else LinExpr.equals_loop (LinExpr.other_contents d') d.

(** The sparsity invariant: every stored coefficient is larger than
    [1e-12] in magnitude. *)
Definition sparse (d : coeffs_dict) : Prop :=
  Forall (fun it => tol < Qabs (snd it)) d.


(** Ways of changing an expression after it was built: through its
    methods, or through the mapping returned by [expr]. *)
Inductive mutation :=
| Mut_add_var (v : Var) (q : Q)
| Mut_setitem (v : Var) (q : Q)
| Mut_delitem (v : Var)
| Mut_add_const (q : Q)
| Mut_set_sense (sn : string).

Definition mutate (l : loc) (m : mutation) : M unit :=
  match m with
  | Mut_add_var v q => LinExpr.add_var l v q
  | Mut_setitem v q => r <- LinExpr.expr l ;; dict_setitem r v q
  | Mut_delitem v => r <- LinExpr.expr l ;; dict_delitem r v
  | Mut_add_const q => LinExpr.add_const l q
  | Mut_set_sense sn => LinExpr.set_sense l sn
  end.

(** [l] is an expression whose two cells were created at or after
    address [n]. *)
Definition lives_from (n : nat) (s : State) (l : loc) : Prop :=
  exists o d, is_linexpr s l o d /\ (n <= l)%nat /\ (n <= __expr o)%nat.

(** The three constraints of the examples: [x + y <= k], [x + y == k],
    [x + y >= k], and their violation. *)
Definition violation_of_le (x y : Var) (k : Q) : M Q :=
  e <- Var.__add__ x (PyVar y) ;;
  c <- LinExpr.__le__ e (PyReal k) ;;
  LinExpr.violation c.

Definition violation_of_eq (x y : Var) (k : Q) : M Q :=
  e <- Var.__add__ x (PyVar y) ;;
  c <- LinExpr.__eq__ e (PyReal k) ;;
  LinExpr.violation c.

Definition violation_of_ge (x y : Var) (k : Q) : M Q :=
  e <- Var.__add__ x (PyVar y) ;;
  c <- LinExpr.__ge__ e (PyReal k) ;;
  LinExpr.violation c.

(** Concrete inputs: two variables of one model, a solver that knows the
    values [a] of [x] and [b] of [y], and the constraint [x + y <= 10] as
    it sits in the heap. *)
Definition var_x : Var := mkVar 0 0.
Definition var_y : Var := mkVar 0 1.

Definition solver_xy (a b : option Q) : Solver :=
  mkSolver
    (fun v => if (idx v =? 0)%Z then a
              else if (idx v =? 1)%Z then b else None)
    (fun _ _ => false).

Definition env_xy (a b : option Q) : Env := mkEnv tol (fun _ => solver_xy a b).

Definition empty_state : State := mkState [] [].

Definition items_xy : coeffs_dict := [(var_x, 1); (var_y, 1)].

Definition obj_le : LinExprObj := mkLinExpr (-10) 0%nat "<".

Definition state_le : State := mkState [ODict items_xy; OLinExpr obj_le] [].

(** [(x + y).x]. *)
Definition x_of_sum (x y : Var) : M (option Q) :=
  e <- Var.__add__ x (PyVar y) ;; LinExpr.x e.

(** What a lookup of [v] finds after [add_var(v, c)]. *)
Definition after_add_var (eps : Q) (before : option Q) (c : Q) : option Q :=
  match before with
  | None => Some c
  | Some old =>
      if Qle_bool (- eps) (old + c) && Qle_bool (old + c) eps then None
      else Some (old + c)
  end.

(** The constraint [lhs sense rhs] holds at the values the solver reports,
    with [lhs] the sum of coefficient times value and [rhs = -const]. *)
Definition satisfied (E : Env) (o : LinExprObj) (d : coeffs_dict) : Prop :=
  if String.eqb (__sense o) "=" then spec_lhs E d == - __const o
  else if String.eqb (__sense o) "<" then spec_lhs E d <= - __const o
  else - __const o <= spec_lhs E d.

(** The state [state_le] with the sense erased: the expression
    [x + y - 10]. *)
Definition obj_plain : LinExprObj := mkLinExpr (-10) 0%nat "".

Definition state_plain : State :=
  mkState [ODict items_xy; OLinExpr obj_plain] [].

(** What an operand of [+] or [-] contributes: a variable, the constant and
    items of an expression, or a number. *)
Inductive operand :=
| Op_var (v : Var)
| Op_expr (ce : Q) (de : coeffs_dict)
| Op_real (q : Q).

(** The value [other] stands for the operand [t] in state [s]. *)
Definition denotes (s : State) (other : pyval) (t : operand) : Prop :=
  match other, t with
  | PyVar v, Op_var v' => v = v'
  | PyLinExpr e, Op_expr ce de =>
      exists oe, is_linexpr s e oe de /\ __const oe = ce
  | PyReal q, Op_real q' => q = q'
  | _, _ => False
  end.

(** Constant and items of [self + t] and of [self - t]. *)
Definition added (eps : Q) (c : Q) (d : coeffs_dict) (t : operand)
    : Q * coeffs_dict :=
  match t with
  | Op_var v => (c, add_var_items eps d v 1)
  | Op_expr ce de => (c + ce * 1, add_expr_items eps d de 1)
  | Op_real q => (c + q, d)
  end.

Definition subtracted (eps : Q) (c : Q) (d : coeffs_dict) (t : operand)
    : Q * coeffs_dict :=
  match t with
  | Op_var v => (c, add_var_items eps d v (-1))
  | Op_expr ce de => (c + ce * -1, add_expr_items eps d de (-1))
  | Op_real q => (c + - q, d)
  end.

(** The values no arithmetic operator accepts. *)
Definition unsupported (other : pyval) : Prop :=
  match other with
  | PyStr _ | PyNone => True
  | _ => False
  end.


(** Every cell but the two of the expression at [l] is the same in [s]
    and [s']. *)
Definition only_changes (s s' : State) (l : loc) (o : LinExprObj) : Prop :=
  calls s' = calls s /\
  forall a, a <> l -> a <> __expr o -> heap s' !! a = heap s !! a.

(** The items of a mapping with every coefficient multiplied by [q]. *)
Definition scale_items (q : Q) (d : coeffs_dict) : coeffs_dict :=
  map (fun it => (fst it, snd it * q)) d.

(** Every item of [d] has a counterpart in [d'], under the same index and
    with a coefficient no more than [1e-12] away. *)
Definition matched (d d' : coeffs_dict) : Prop :=
  forall v c, In (v, c) d ->
    exists v' c', In (v', c') d' /\ idx v' = idx v /\ Qabs (c - c') <= tol.

(** [e = c1*x1 - c2*x2 + k] followed by [e2 = e + x2*c2]; the pair
    [(e, e2)]. *)
Definition cancel_through_operators (x1 x2 : Var) (c1 c2 k : Q)
    : M (loc * loc) :=
  a <- Var.__rmul__ x1 (PyReal c1) ;;
  b <- Var.__rmul__ x2 (PyReal c2) ;;
  d <- LinExpr.__sub__ a (PyLinExpr b) ;;
  e <- LinExpr.__add__ d (PyReal k) ;;
  t <- Var.__mul__ x2 (PyReal c2) ;;
  e2 <- LinExpr.__add__ e (PyLinExpr t) ;;
  ret (e, e2).

(** [(k - e).equals(-(e - k))]; [k - e] on a number and an expression is
    [LinExpr.__rsub__]. *)
Definition number_minus_expression (e : loc) (k : Q) : M bool :=
  a <- LinExpr.__rsub__ e (PyReal k) ;;
  b <- LinExpr.__sub__ e (PyReal k) ;;
  nb <- LinExpr.__neg__ b ;;
  LinExpr.equals a nb.

(** One entry of a column as [Column.__str__] prints it. *)
Definition column_item (fmt : Q -> string) (name : Z -> string)
    (cn : Z) (c : Q) : string :=
  (fmt c ++ " " ++ name cn)%string.

(** Handles as keys.  [k] and [v] are told apart by a dictionary without
    a call of [Var.__eq__]: they are one handle, or their hashes differ.
    Variables of one model with indices from [0] are so. *)
Definition distinguishable (k v : Var) : Prop :=
  py_hash (Var.__hash__ k) = py_hash (Var.__hash__ v) -> k = v.

(** [v] can be looked up in a mapping with the items [d]. *)
Definition known_to (d : coeffs_dict) (v : Var) : Prop :=
  forall k c, In (k, c) d -> distinguishable k v.


(** [a is b] on handles. *)
Definition Var_is (a b : Var) : bool :=
  (__model a =? __model b)%nat && (idx a =? idx b)%Z.

(** A lookup of [v] as the dictionary of the code makes it.  The stored
    key with the hash of [v] is [v] itself and its value is found; or no
    stored key has that hash; or a stored key with that hash is another
    object, and the dictionary calls [Var.__eq__] on it and [v]. *)
Inductive probe :=
| Found (c : Q)
| Absent
| Compared (k : Var).

Fixpoint dict_probe (d : coeffs_dict) (v : Var) : probe :=
  match d with
  | [] => Absent
  | (k, c) :: r =>
      if (py_hash (Var.__hash__ k) =? py_hash (Var.__hash__ v))%Z
      then if Var_is k v then Found c else Compared k
      else dict_probe r v
  end.

(** Two constraints in one heap: [x + y <= 10] and, with its terms entered
    in the other order, [y + x <= 10]. *)
Definition items_yx : coeffs_dict := [(var_y, 1); (var_x, 1)].

Definition obj_yx : LinExprObj := mkLinExpr (-10) 2%nat "<".

Definition state_two : State :=
  mkState [ODict items_xy; OLinExpr obj_le; ODict items_yx; OLinExpr obj_yx] [].


(* ================================================================== *)
(** * The monad *)
(* ================================================================== *)

Lemma bind_ok {A B} (m : M A) (f : A -> M B) E s a s' :
  m E s = (Ok a, s') -> bind m f E s = f a E s'.
Proof. intros H. unfold bind. now rewrite H. Qed.

Lemma bind_raise {A B} (m : M A) (f : A -> M B) E s e s' :
  m E s = (Raise e, s') -> bind m f E s = (Raise e, s').
Proof. intros H. unfold bind. now rewrite H. Qed.

Lemma returns_ret {A} (a : A) E s (P : A -> State -> Prop) :
  P a s -> returns (ret a) E s P.
Proof. intros H. exists a, s. split; [reflexivity | exact H]. Qed.

Lemma returns_bind {A B} (m : M A) (f : A -> M B) E s
    (P : B -> State -> Prop) :
  returns m E s (fun a s' => returns (f a) E s' P) ->
  returns (bind m f) E s P.
Proof.
  intros (a & s' & Hm & b & s'' & Hf & HP).
  exists b, s''. split; [| exact HP].
  rewrite (bind_ok _ _ _ _ _ _ Hm). exact Hf.
Qed.

Lemma returns_mono {A} (m : M A) E s (P P' : A -> State -> Prop) :
  returns m E s P -> (forall a s', P a s' -> P' a s') -> returns m E s P'.
Proof.
  intros (a & s' & Hm & HP) Himp. exists a, s'. split; [exact Hm | auto].
Qed.

Lemma returns_eq {A} (m : M A) E s a s' (P : A -> State -> Prop) :
  m E s = (Ok a, s') -> P a s' -> returns m E s P.
Proof. intros Hm HP. exists a, s'. auto. Qed.

Lemma returns_step {A B} (m : M A) (f : A -> M B) E s a s'
    (P : B -> State -> Prop) :
  m E s = (Ok a, s') -> returns (f a) E s' P -> returns (bind m f) E s P.
Proof.
  intros Hm (b & s'' & Hf & HP). exists b, s''. split; [| exact HP].
  rewrite (bind_ok _ _ _ _ _ _ Hm). exact Hf.
Qed.

(* ================================================================== *)
(** * The heap *)
(* ================================================================== *)

Lemma heap_upd s r x : heap (upd s r x) = <[r := x]> (heap s).
Proof. reflexivity. Qed.

Lemma calls_upd s r x : calls (upd s r x) = calls s.
Proof. reflexivity. Qed.

Lemma heap_grow s cells : heap (grow s cells) = heap s ++ cells.
Proof. reflexivity. Qed.

Lemma calls_grow s cells : calls (grow s cells) = calls s.
Proof. reflexivity. Qed.

Lemma upd_upd s r x y : upd (upd s r x) r y = upd s r y.
Proof.
  unfold upd, set_heap. simpl. f_equal. apply list_insert_insert_eq.
Qed.

Lemma upd_same s r x : heap s !! r = Some x -> upd s r x = s.
Proof.
  intros H. destruct s as [h c]. unfold upd, set_heap. simpl in *.
  f_equal. now apply list_insert_id.
Qed.

Lemma lookup_upd_eq s r x y :
  heap s !! r = Some y -> heap (upd s r x) !! r = Some x.
Proof.
  intros H. rewrite heap_upd. apply list_lookup_insert_eq.
  eapply lookup_lt_Some, H.
Qed.

Lemma lookup_upd_ne s r l x : l <> r -> heap (upd s r x) !! l = heap s !! l.
Proof. intros H. rewrite heap_upd. apply list_lookup_insert_ne. congruence. Qed.

Lemma grow_grow s a b : grow (grow s a) b = grow s (a ++ b).
Proof. unfold grow, set_heap. simpl. f_equal. symmetry. apply app_assoc. Qed.

Lemma lookup_grow_old s cells l x :
  heap s !! l = Some x -> heap (grow s cells) !! l = Some x.
Proof. intros H. rewrite heap_grow. now apply lookup_app_l_Some. Qed.

Lemma lookup_grow_new s cells k :
  heap (grow s cells) !! (length (heap s) + k)%nat = cells !! k.
Proof.
  rewrite heap_grow, lookup_app_r by lia. f_equal. lia.
Qed.

Lemma upd_grow s cells k x :
  upd (grow s cells) (length (heap s) + k)%nat x = grow s (<[k := x]> cells).
Proof.
  unfold upd, grow, set_heap. simpl. f_equal.
  rewrite insert_app_r_alt by lia. do 2 f_equal. lia.
Qed.

Lemma extends_refl s : extends s s.
Proof. intros l x H. exact H. Qed.

Lemma extends_trans s1 s2 s3 : extends s1 s2 -> extends s2 s3 -> extends s1 s3.
Proof. intros H1 H2 l x H. apply H2, H1, H. Qed.

Lemma extends_grow s cells : extends s (grow s cells).
Proof. intros l x H. now apply lookup_grow_old. Qed.

Lemma extends_length s s' : extends s s' -> (length (heap s) <= length (heap s'))%nat.
Proof.
  intros H. destruct (le_lt_dec (length (heap s)) (length (heap s'))) as [|Hlt]; [assumption|].
  destruct (lookup_lt_is_Some_2 (heap s) (length (heap s'))) as [x Hx]; [lia|].
  apply H in Hx. apply lookup_lt_Some in Hx. lia.
Qed.

Lemma is_linexpr_extends s s' l o d :
  is_linexpr s l o d -> extends s s' -> is_linexpr s' l o d.
Proof. intros [H1 H2] He. split; apply He; assumption. Qed.

Lemma is_linexpr_lt s l o d :
  is_linexpr s l o d ->
  (l < length (heap s))%nat /\ (__expr o < length (heap s))%nat.
Proof. intros [H1 H2]. split; eapply lookup_lt_Some; eassumption. Qed.

Lemma is_linexpr_ne s l o d : is_linexpr s l o d -> l <> __expr o.
Proof. intros [H1 H2] Heq. rewrite <- Heq in H2. congruence. Qed.

Lemma is_linexpr_inj s l o d o' d' :
  is_linexpr s l o d -> is_linexpr s l o' d' -> o = o' /\ d = d'.
Proof.
  intros [H1 H2] [H1' H2']. rewrite H1 in H1'. injection H1' as ->.
  rewrite H2 in H2'. injection H2' as ->. auto.
Qed.

(** ** Primitive steps *)

Lemma get_obj_run E s l o :
  heap s !! l = Some (OLinExpr o) -> get_obj l E s = (Ok o, s).
Proof. intros H. unfold get_obj. now rewrite H. Qed.

Lemma set_obj_run E s l o o' :
  heap s !! l = Some (OLinExpr o) ->
  set_obj l o' E s = (Ok tt, upd s l (OLinExpr o')).
Proof. intros H. unfold set_obj. now rewrite H. Qed.

Lemma read_dict_run E s r d :
  heap s !! r = Some (ODict d) -> read_dict r E s = (Ok d, s).
Proof. intros H. unfold read_dict. now rewrite H. Qed.

Lemma write_dict_run E s r d d' :
  heap s !! r = Some (ODict d) ->
  write_dict r d' E s = (Ok tt, upd s r (ODict d')).
Proof. intros H. unfold write_dict. now rewrite H. Qed.

Lemma dict_len_run E s r d :
  heap s !! r = Some (ODict d) -> dict_len r E s = (Ok (length d), s).
Proof.
  intros H. unfold dict_len.
  now rewrite (bind_ok _ _ _ _ _ _ (read_dict_run E s r d H)).
Qed.

Lemma dict_setitem_run E s r d k v :
  heap s !! r = Some (ODict d) ->
  dict_setitem r k v E s = (Ok tt, upd s r (ODict (dict_set Var_key_eqb d k v))).
Proof.
  intros H. unfold dict_setitem.
  rewrite (bind_ok _ _ _ _ _ _ (read_dict_run E s r d H)).
  now apply write_dict_run with d.
Qed.

Lemma dict_delitem_run E s r d k :
  heap s !! r = Some (ODict d) ->
  dict_contains Var_key_eqb d k = true ->
  dict_delitem r k E s = (Ok tt, upd s r (ODict (dict_del Var_key_eqb d k))).
Proof.
  intros H Hk. unfold dict_delitem.
  rewrite (bind_ok _ _ _ _ _ _ (read_dict_run E s r d H)), Hk.
  now apply write_dict_run with d.
Qed.

Lemma alloc_run E s x :
  alloc x E s = (Ok (length (heap s)), grow s [x]).
Proof. reflexivity. Qed.

(** ** [add_var], [add_const], [set_sense] *)

Lemma dict_contains_run E s r d k :
  heap s !! r = Some (ODict d) ->
  dict_contains_ r k E s = (Ok (dict_contains Var_key_eqb d k), s).
Proof.
  intros H. unfold dict_contains_.
  now rewrite (bind_ok _ _ _ _ _ _ (read_dict_run E s r d H)).
Qed.

Lemma dict_getitem_run E s r d k v :
  heap s !! r = Some (ODict d) -> dict_get Var_key_eqb d k = Some v ->
  dict_getitem r k E s = (Ok v, s).
Proof.
  intros H Hk. unfold dict_getitem.
  now rewrite (bind_ok _ _ _ _ _ _ (read_dict_run E s r d H)), Hk.
Qed.

Lemma add_var_run E s l o d v q :
  is_linexpr s l o d ->
  LinExpr.add_var l v q E s =
  (Ok tt, upd s (__expr o) (ODict (add_var_items (EPS E) d v q))).
Proof.
  intros [Ho Hd]. unfold LinExpr.add_var, add_var_items.
  rewrite (bind_ok _ _ _ _ _ _ (get_obj_run E s l o Ho)).
  rewrite (bind_ok _ _ _ _ _ _ (dict_contains_run E s _ d v Hd)).
  unfold dict_contains.
  destruct (dict_get Var_key_eqb d v) as [old|] eqn:Hget.
  - unfold bind at 1, ask.
    rewrite (bind_ok _ _ _ _ _ _ (dict_getitem_run E s _ d v old Hd Hget)).
    destruct (Qle_bool (- EPS E) (old + q) && Qle_bool (old + q) (EPS E)).
    + apply dict_delitem_run; [exact Hd |].
      unfold dict_contains. now rewrite Hget.
    + rewrite (bind_ok _ _ _ _ _ _ (dict_getitem_run E s _ d v old Hd Hget)).
      now apply dict_setitem_run.
  - now apply dict_setitem_run.
Qed.

Lemma is_linexpr_upd_dict s l o d d' :
  is_linexpr s l o d -> is_linexpr (upd s (__expr o) (ODict d')) l o d'.
Proof.
  intros H. pose proof (is_linexpr_ne _ _ _ _ H) as Hne. destruct H as [Ho Hd].
  split.
  - rewrite lookup_upd_ne by exact Hne. exact Ho.
  - eapply lookup_upd_eq, Hd.
Qed.

Lemma add_const_run E s l o val :
  heap s !! l = Some (OLinExpr o) ->
  LinExpr.add_const l val E s =
  (Ok tt, upd s l (OLinExpr (mkLinExpr (__const o + val) (__expr o) (__sense o)))).
Proof.
  intros Ho. unfold LinExpr.add_const.
  rewrite (bind_ok _ _ _ _ _ _ (get_obj_run E s l o Ho)).
  now apply set_obj_run with o.
Qed.

Lemma set_sense_run E s l o sn :
  heap s !! l = Some (OLinExpr o) ->
  LinExpr.set_sense l sn E s =
  (Ok tt, upd s l (OLinExpr (mkLinExpr (__const o) (__expr o) sn))).
Proof.
  intros Ho. unfold LinExpr.set_sense.
  rewrite (bind_ok _ _ _ _ _ _ (get_obj_run E s l o Ho)).
  now apply set_obj_run with o.
Qed.

Lemma is_linexpr_upd_obj s l o d o' :
  is_linexpr s l o d -> __expr o' = __expr o ->
  is_linexpr (upd s l (OLinExpr o')) l o' d.
Proof.
  intros H He. pose proof (is_linexpr_ne _ _ _ _ H) as Hne. destruct H as [Ho Hd].
  split.
  - eapply lookup_upd_eq, Ho.
  - rewrite He, lookup_upd_ne by congruence. exact Hd.
Qed.

(** ** The constructor *)

Lemma lookup_grow_0 s x cells :
  heap (grow s (x :: cells)) !! length (heap s) = Some x.
Proof.
  rewrite <- (Nat.add_0_r (length (heap s))). now rewrite lookup_grow_new.
Qed.

Lemma lookup_grow_1 s x y cells :
  heap (grow s (x :: y :: cells)) !! S (length (heap s)) = Some y.
Proof.
  rewrite <- (Nat.add_1_r (length (heap s))). now rewrite lookup_grow_new.
Qed.

Lemma lookup_grow_2 s x y z cells :
  heap (grow s (x :: y :: z :: cells)) !! S (S (length (heap s))) = Some z.
Proof.
  replace (S (S (length (heap s)))) with (length (heap s) + 2)%nat by lia.
  now rewrite lookup_grow_new.
Qed.

Lemma upd_grow_0 s x cells y :
  upd (grow s (x :: cells)) (length (heap s)) y = grow s (y :: cells).
Proof.
  rewrite <- (Nat.add_0_r (length (heap s))) at 1. now rewrite upd_grow.
Qed.

Lemma upd_grow_1 s x y cells z :
  upd (grow s (x :: y :: cells)) (S (length (heap s))) z =
  grow s (x :: z :: cells).
Proof.
  rewrite <- (Nat.add_1_r (length (heap s))). now rewrite upd_grow.
Qed.

Lemma upd_grow_2 s x y z cells w :
  upd (grow s (x :: y :: z :: cells)) (S (S (length (heap s)))) w =
  grow s (x :: y :: w :: cells).
Proof.
  replace (S (S (length (heap s)))) with (length (heap s) + 2)%nat by lia.
  now rewrite upd_grow.
Qed.

Lemma length_heap_grow s cells :
  length (heap (grow s cells)) = (length (heap s) + length cells)%nat.
Proof. rewrite heap_grow. apply length_app. Qed.

Lemma init_loop_run E self o variables coeffs :
  forall cs2 vs2 vs1 cs1 d s,
    is_linexpr s self o d ->
    variables = vs1 ++ vs2 -> coeffs = cs1 ++ cs2 ->
    length vs1 = length cs1 -> length vs2 = length cs2 ->
    for_ (seq (length cs1) (length cs2))
      (fun i =>
         c <- list_getitem coeffs i ;;
         if Qle_bool (Qabs c) tol then ret tt
         else
           v <- list_getitem variables i ;;
           c' <- list_getitem coeffs i ;;
           LinExpr.add_var self v c') E s =
    (Ok tt,
     upd s (__expr o)
       (ODict (fold_left (init_step (EPS E)) (combine vs2 cs2) d))).
Proof.
  induction cs2 as [|c cs2 IH]; intros vs2 vs1 cs1 d s0 Hl Hv Hc Hl1 Hl2.
  - destruct vs2; [| discriminate]. simpl.
    unfold ret. f_equal. symmetry. apply upd_same. apply Hl.
  - destruct vs2 as [|v vs2]; [discriminate |]. simpl in Hl2.
    injection Hl2 as Hl2. cbn [length seq for_ combine fold_left].
    assert (Hci : coeffs !! length cs1 = Some c).
    { rewrite Hc. apply list_lookup_middle. reflexivity. }
    assert (Hvi : variables !! length cs1 = Some v).
    { rewrite Hv. apply list_lookup_middle. congruence. }
    assert (Hnext : forall d' s',
      is_linexpr s' self o d' ->
      for_ (seq (S (length cs1)) (length cs2))
        (fun i =>
           c <- list_getitem coeffs i ;;
           if Qle_bool (Qabs c) tol then ret tt
           else
             v <- list_getitem variables i ;;
             c' <- list_getitem coeffs i ;;
             LinExpr.add_var self v c') E s' =
      (Ok tt,
       upd s' (__expr o)
         (ODict (fold_left (init_step (EPS E)) (combine vs2 cs2) d')))).
    { intros d' s' Hl'.
      replace (S (length cs1)) with (length (cs1 ++ [c])).
      2:{ rewrite length_app. simpl. lia. }
      apply IH with (vs1 := vs1 ++ [v]).
      - exact Hl'.
      - rewrite Hv, <- app_assoc. reflexivity.
      - rewrite Hc, <- app_assoc. reflexivity.
      - rewrite !length_app. simpl. lia.
      - exact Hl2. }
    unfold bind at 1. unfold bind at 1. unfold list_getitem at 1.
    rewrite Hci. unfold ret at 1. unfold init_step at 2. cbn [fst snd].
    destruct (Qle_bool (Qabs c) tol).
    + unfold ret at 1. apply Hnext, Hl.
    + unfold bind at 1. unfold list_getitem at 1. rewrite Hvi.
      unfold ret at 1. unfold bind at 1. unfold list_getitem at 1.
      rewrite Hci. unfold ret at 1.
      rewrite (add_var_run E s0 self o d v c Hl).
      rewrite (Hnext _ _ (is_linexpr_upd_dict _ _ _ _ _ Hl)).
      now rewrite upd_upd.
Qed.

Lemma is_linexpr_grow_new s c sn d cells :
  is_linexpr
    (grow s (ODict d :: OLinExpr (mkLinExpr c (length (heap s)) sn) :: cells))
    (S (length (heap s))) (mkLinExpr c (length (heap s)) sn) d.
Proof.
  split; [apply lookup_grow_1 | apply lookup_grow_0].
Qed.

Lemma init_run E s vs cs c sn :
  vs = [] \/ length vs = length cs ->
  LinExpr.__init__ vs cs c sn E s =
  (Ok (S (length (heap s))),
   grow s [ODict (init_items (EPS E) vs cs);
           OLinExpr (mkLinExpr c (length (heap s)) sn)]).
Proof.
  intros Hlen. unfold LinExpr.__init__.
  rewrite (bind_ok _ _ _ _ _ _ (alloc_run E s (ODict []))).
  rewrite (bind_ok _ _ _ _ _ _ (alloc_run E _ _)).
  rewrite grow_grow, length_heap_grow. cbn [length app].
  rewrite Nat.add_1_r.
  destruct vs as [|v vs].
  - reflexivity.
  - destruct Hlen as [Hlen | Hlen]; [discriminate |].
    rewrite Hlen, Nat.eqb_refl. cbn [negb].
    pose proof (init_loop_run E
      (S (length (heap s))) (mkLinExpr c (length (heap s)) sn)
      (v :: vs) cs cs (v :: vs) [] [] []
      _ (is_linexpr_grow_new s c sn [] []) eq_refl eq_refl eq_refl Hlen)
      as Hloop.
    cbn [length] in Hloop.
    rewrite (bind_ok _ _ _ _ _ _ Hloop).
    cbn [__expr]. rewrite upd_grow_0. reflexivity.
Qed.

(** ** [copy] and [add_expr] *)

Lemma dict_copy_run E s r d :
  heap s !! r = Some (ODict d) ->
  dict_copy r E s = (Ok (length (heap s)), grow s [ODict d]).
Proof.
  intros H. unfold dict_copy.
  now rewrite (bind_ok _ _ _ _ _ _ (read_dict_run E s r d H)).
Qed.

Lemma copy_run E s l o d :
  is_linexpr s l o d ->
  LinExpr.copy l E s =
  (Ok (S (length (heap s))),
   grow s [ODict [];
           OLinExpr (mkLinExpr (__const o) (S (S (length (heap s)))) (__sense o));
           ODict d]).
Proof.
  intros [Ho Hd]. unfold LinExpr.copy.
  rewrite (bind_ok _ _ _ _ _ _ (init_run E s [] [] 0 "" (or_introl eq_refl))).
  change (init_items (EPS E) [] []) with (@nil (Var * Q)).
  set (s1 := grow s _).
  rewrite (bind_ok _ _ _ _ _ _ (get_obj_run E s1 l o (lookup_grow_old _ _ _ _ Ho))).
  rewrite (bind_ok _ _ _ _ _ _ (get_obj_run E s1 _ _ (lookup_grow_1 _ _ _ _))).
  rewrite (bind_ok _ _ _ _ _ _ (set_obj_run E s1 _ _ _ (lookup_grow_1 _ _ _ _))).
  subst s1. rewrite upd_grow_1. cbn [__const __expr __sense].
  set (s2 := grow s _).
  rewrite (bind_ok _ _ _ _ _ _ (dict_copy_run E s2 _ d (lookup_grow_old _ _ _ _ Hd))).
  subst s2. rewrite grow_grow, length_heap_grow. cbn [length app].
  replace (length (heap s) + 2)%nat with (S (S (length (heap s)))) by lia.
  set (s3 := grow s _).
  rewrite (bind_ok _ _ _ _ _ _ (get_obj_run E s3 _ _ (lookup_grow_1 _ _ _ _))).
  rewrite (bind_ok _ _ _ _ _ _ (set_obj_run E s3 _ _ _ (lookup_grow_1 _ _ _ _))).
  subst s3. rewrite upd_grow_1. cbn [__const __expr __sense].
  set (s4 := grow s _).
  rewrite (bind_ok _ _ _ _ _ _ (get_obj_run E s4 _ _ (lookup_grow_1 _ _ _ _))).
  rewrite (bind_ok _ _ _ _ _ _ (set_obj_run E s4 _ _ _ (lookup_grow_1 _ _ _ _))).
  subst s4. rewrite upd_grow_1. cbn [__const __expr __sense].
  reflexivity.
Qed.

(** A copy made in [s]: three new cells. *)
Lemma is_linexpr_copy_new s c sn d x :
  is_linexpr
    (grow s [x; OLinExpr (mkLinExpr c (S (S (length (heap s)))) sn); ODict d])
    (S (length (heap s))) (mkLinExpr c (S (S (length (heap s)))) sn) d.
Proof.
  split; [apply lookup_grow_1 | apply lookup_grow_2].
Qed.

Lemma iter_items_add_var_run E self o re de coeff :
  forall its d s,
    is_linexpr s self o d ->
    heap s !! re = Some (ODict de) -> re <> __expr o ->
    iter_items re (length de) its
      (fun var coeff_var => LinExpr.add_var self var (coeff_var * coeff)) E s =
    (Ok tt, upd s (__expr o) (ODict (add_expr_items (EPS E) d its coeff))).
Proof.
  induction its as [|[k v] its IH]; intros d s Hl Hre Hne.
  - cbn [iter_items]. rewrite (bind_ok _ _ _ _ _ _ (dict_len_run E s re de Hre)).
    rewrite Nat.eqb_refl. cbn [negb]. unfold ret, add_expr_items. cbn [fold_left].
    f_equal. symmetry. apply upd_same, Hl.
  - cbn [iter_items]. rewrite (bind_ok _ _ _ _ _ _ (dict_len_run E s re de Hre)).
    rewrite Nat.eqb_refl. cbn [negb].
    rewrite (bind_ok _ _ _ _ _ _ (add_var_run E s self o d k (v * coeff) Hl)).
    rewrite (IH _ _ (is_linexpr_upd_dict _ _ _ _ _ Hl)).
    + rewrite upd_upd. reflexivity.
    + rewrite lookup_upd_ne by exact Hne. exact Hre.
    + exact Hne.
Qed.

Lemma add_expr_run E s self o d e oe de coeff :
  is_linexpr s self o d -> is_linexpr s e oe de ->
  self <> e -> __expr o <> __expr oe ->
  LinExpr.add_expr self e coeff E s =
  (Ok tt,
   upd (upd s self (OLinExpr (mkLinExpr (__const o + __const oe * coeff)
                                        (__expr o) (__sense o))))
       (__expr o) (ODict (add_expr_items (EPS E) d de coeff))).
Proof.
  intros Hl He Hne Hner. unfold LinExpr.add_expr.
  rewrite (bind_ok _ _ _ _ _ _ (get_obj_run E s self o (proj1 Hl))).
  unfold LinExpr.const at 1.
  unfold bind at 1. unfold bind at 1.
  rewrite (get_obj_run E s e oe (proj1 He)). unfold ret at 1.
  rewrite (bind_ok _ _ _ _ _ _ (set_obj_run E s self o _ (proj1 Hl))).
  set (o' := mkLinExpr _ _ _). set (s1 := upd s self _).
  assert (Hl1 : is_linexpr s1 self o' d).
  { apply (is_linexpr_upd_obj s self o d o' Hl). reflexivity. }
  assert (He1 : is_linexpr s1 e oe de).
  { destruct He as [He1 He2]. pose proof (is_linexpr_ne _ _ _ _ Hl).
    split; unfold s1; rewrite lookup_upd_ne; auto.
    intros Heq. destruct Hl as [Hl1' Hl2']. rewrite <- Heq in Hl1'. congruence. }
  unfold LinExpr.expr. unfold bind at 1. unfold bind at 1.
  rewrite (get_obj_run E s1 e oe (proj1 He1)). unfold ret at 1.
  unfold for_items.
  rewrite (bind_ok _ _ _ _ _ _ (read_dict_run E s1 _ de (proj2 He1))).
  apply (iter_items_add_var_run E self o' (__expr oe) de coeff de d s1 Hl1 (proj2 He1)).
  cbn. congruence.
Qed.

(** ** Operators that build a new expression *)

Lemma allocated_grow2 s c sn d :
  allocated s
    (grow s [ODict d; OLinExpr (mkLinExpr c (length (heap s)) sn)])
    (S (length (heap s))) c d sn.
Proof.
  split; [apply extends_grow |]. split; [reflexivity |]. split; [lia |].
  exists (length (heap s)). split; [lia |]. apply is_linexpr_grow_new.
Qed.

Lemma allocated_grow3 s x c sn d :
  allocated s
    (grow s [x; OLinExpr (mkLinExpr c (S (S (length (heap s)))) sn); ODict d])
    (S (length (heap s))) c d sn.
Proof.
  split; [apply extends_grow |]. split; [reflexivity |]. split; [lia |].
  exists (S (S (length (heap s)))). split; [lia |]. apply is_linexpr_copy_new.
Qed.


Lemma sub_real_run E s self o d q :
  is_linexpr s self o d ->
  LinExpr.__sub__ self (PyReal q) E s =
  (Ok (S (length (heap s))),
   grow s [ODict [];
           OLinExpr (mkLinExpr (__const o + - q)
                               (S (S (length (heap s)))) (__sense o));
           ODict d]).
Proof.
  intros Hl. unfold LinExpr.__sub__.
  rewrite (bind_ok _ _ _ _ _ _ (copy_run E s self o d Hl)).
  set (s1 := grow s _).
  rewrite (bind_ok _ _ _ _ _ _
    (add_const_run E s1 _ _ (- q) (lookup_grow_1 _ _ _ _))).
  cbn [__const __expr __sense]. unfold s1. rewrite upd_grow_1. reflexivity.
Qed.

Lemma relational_real_run E s self o d q sn
    (op : loc -> pyval -> M loc) :
  (forall a b, op a b =
     (result <- LinExpr.__sub__ a b ;; LinExpr.set_sense result sn ;;; ret result)) ->
  is_linexpr s self o d ->
  op self (PyReal q) E s =
  (Ok (S (length (heap s))),
   grow s [ODict [];
           OLinExpr (mkLinExpr (__const o + - q) (S (S (length (heap s)))) sn);
           ODict d]).
Proof.
  intros Hop Hl. rewrite Hop.
  rewrite (bind_ok _ _ _ _ _ _ (sub_real_run E s self o d q Hl)).
  set (s1 := grow s _).
  rewrite (bind_ok _ _ _ _ _ _
    (set_sense_run E s1 _ _ sn (lookup_grow_1 _ _ _ _))).
  cbn [__const __expr __sense]. unfold s1. rewrite upd_grow_1. reflexivity.
Qed.

Lemma le_real_run E s self o d q :
  is_linexpr s self o d ->
  LinExpr.__le__ self (PyReal q) E s =
  (Ok (S (length (heap s))),
   grow s [ODict [];
           OLinExpr (mkLinExpr (__const o + - q) (S (S (length (heap s)))) "<");
           ODict d]).
Proof. apply relational_real_run. reflexivity. Qed.

Lemma eq_real_run E s self o d q :
  is_linexpr s self o d ->
  LinExpr.__eq__ self (PyReal q) E s =
  (Ok (S (length (heap s))),
   grow s [ODict [];
           OLinExpr (mkLinExpr (__const o + - q) (S (S (length (heap s)))) "=");
           ODict d]).
Proof. apply relational_real_run. reflexivity. Qed.

Lemma ge_real_run E s self o d q :
  is_linexpr s self o d ->
  LinExpr.__ge__ self (PyReal q) E s =
  (Ok (S (length (heap s))),
   grow s [ODict [];
           OLinExpr (mkLinExpr (__const o + - q) (S (S (length (heap s)))) ">");
           ODict d]).
Proof. apply relational_real_run. reflexivity. Qed.

(** ** Numbers *)

Lemma Qlt_bool_iff a b : Qlt_bool a b = true <-> a < b.
Proof.
  unfold Qlt_bool. rewrite negb_true_iff.
  split; intros H.
  - apply Qnot_le_lt. intros Hle. apply Qle_bool_iff in Hle. congruence.
  - destruct (Qle_bool b a) eqn:Hb; [| reflexivity].
    apply Qle_bool_iff in Hb. apply Qle_not_lt in Hb. contradiction.
Qed.

Lemma Qlt_bool_false a b : Qlt_bool a b = false <-> b <= a.
Proof.
  unfold Qlt_bool. rewrite negb_false_iff. apply Qle_bool_iff.
Qed.

Lemma py_max_Qmax a a' b b' : a == a' -> b == b' -> py_max a b == Qmax a' b'.
Proof.
  intros Ha Hb. unfold py_max.
  destruct (Q.max_spec a' b') as [[Hlt Hm] | [Hle Hm]]; rewrite Hm.
  - destruct (Qlt_bool a b) eqn:Hc; [exact Hb |].
    apply Qlt_bool_false in Hc. lra.
  - destruct (Qlt_bool a b) eqn:Hc; [| exact Ha].
    apply Qlt_bool_iff in Hc. lra.
Qed.

(** ** Methods that only read: [violation], [x], [equals] *)

Lemma all_known_cons E v c its :
  all_known E ((v, c) :: its) ->
  (exists q, value_of E v = Some q) /\ all_known E its.
Proof.
  intros H. split.
  - destruct (value_of E v) as [q|] eqn:Hv; [eauto |].
    exfalso. apply (H v c); [left; reflexivity | exact Hv].
  - intros v' c' Hin. apply (H v' c'). right. exact Hin.
Qed.

Lemma Var_x_run E s v :
  Var_x v E s =
  (Ok (value_of E v), mkState (heap s) (Call_var_get_x v :: calls s)).
Proof. reflexivity. Qed.

Lemma sum_terms_run E :
  forall its acc s,
    all_known E its ->
    exists q s',
      LinExpr.sum_terms its acc E s = (Ok q, s') /\
      q == acc + spec_lhs E its /\ heap s' = heap s.
Proof.
  induction its as [|[v c] its IH]; intros acc s Hk.
  - exists acc, s. cbn. split; [reflexivity |]. split; [lra | reflexivity].
  - destruct (all_known_cons _ _ _ _ Hk) as [[q Hq] Hk'].
    cbn [LinExpr.sum_terms].
    rewrite (bind_ok _ _ _ _ _ _ (Var_x_run E s v)). rewrite Hq.
    cbn [mul_real_optional]. unfold bind at 1, ret at 1.
    destruct (IH (acc + c * q) (mkState (heap s) (Call_var_get_x v :: calls s)) Hk')
      as (r & s' & Hrun & Hr & Hh).
    exists r, s'. split; [exact Hrun |]. split; [| exact Hh].
    cbn [spec_lhs fold_right fst snd]. rewrite Hq.
    fold (spec_lhs E its). lra.
Qed.

Lemma sum_terms_unknown E :
  forall its acc s,
    ~ all_known E its ->
    exists s', LinExpr.sum_terms its acc E s = (Raise TypeError, s') /\
               heap s' = heap s.
Proof.
  induction its as [|[v c] its IH]; intros acc s Hk.
  - exfalso. apply Hk. intros v c [].
  - cbn [LinExpr.sum_terms].
    rewrite (bind_ok _ _ _ _ _ _ (Var_x_run E s v)).
    destruct (value_of E v) as [q|] eqn:Hq.
    + cbn [mul_real_optional]. unfold bind at 1, ret at 1.
      destruct (IH (acc + c * q)
                  (mkState (heap s) (Call_var_get_x v :: calls s)))
        as (s' & Hrun & Hh).
      * intros Hk'. apply Hk. intros v' c' [Heq | Hin].
        -- injection Heq as <- <-. congruence.
        -- apply (Hk' v' c' Hin).
      * exists s'. split; [exact Hrun | exact Hh].
    + cbn [mul_real_optional]. unfold bind, raise. eexists. split; reflexivity.
Qed.

Lemma x_loop_run E :
  forall its acc s,
    exists s', LinExpr.x_loop its acc E s = (Ok (x_value E its acc), s') /\
               heap s' = heap s.
Proof.
  induction its as [|[v c] its IH]; intros acc s.
  - exists s. split; reflexivity.
  - cbn [LinExpr.x_loop x_value].
    rewrite (bind_ok _ _ _ _ _ _ (Var_x_run E s v)).
    destruct (value_of E v) as [q|].
    + destruct (IH (acc + q * c)
                  (mkState (heap s) (Call_var_get_x v :: calls s)))
        as (s' & Hrun & Hh).
      exists s'. split; [exact Hrun | exact Hh].
    + eexists. split; reflexivity.
Qed.

Lemma x_returns E s l o d :
  is_linexpr s l o d ->
  returns (LinExpr.x l) E s
    (fun r s' => r = x_value E d (__const o) /\ heap s' = heap s).
Proof.
  intros [Ho Hd]. unfold LinExpr.x.
  destruct (x_loop_run E d (__const o) s) as (s' & Hrun & Hh).
  exists (x_value E d (__const o)), s'. split; [| auto].
  rewrite (bind_ok _ _ _ _ _ _ (get_obj_run E s l o Ho)).
  rewrite (bind_ok _ _ _ _ _ _ (read_dict_run E s _ d Hd)).
  exact Hrun.
Qed.

Lemma x_value_unknown E :
  forall its acc, ~ all_known E its -> x_value E its acc = None.
Proof.
  induction its as [|[v c] its IH]; intros acc Hk.
  - exfalso. apply Hk. intros v c [].
  - cbn [x_value]. destruct (value_of E v) as [q|] eqn:Hq; [| reflexivity].
    apply IH. intros Hk'. apply Hk. intros v' c' [Heq | Hin].
    + injection Heq as <- <-. congruence.
    + apply (Hk' v' c' Hin).
Qed.

Lemma violation_returns E s l o d :
  is_linexpr s l o d -> all_known E d ->
  (__sense o = "=" \/ __sense o = "<" \/ __sense o = ">")%string ->
  returns (LinExpr.violation l) E s
    (fun q s' => q == spec_violation E o d /\ heap s' = heap s).
Proof.
  intros [Ho Hd] Hk Hs. unfold LinExpr.violation.
  destruct (sum_terms_run E d 0 s Hk) as (lhs & s' & Hrun & Hlhs & Hh).
  assert (Ho' : heap s' !! l = Some (OLinExpr o)) by (rewrite Hh; exact Ho).
  eapply returns_step; [apply get_obj_run, Ho |].
  eapply returns_step; [apply read_dict_run, Hd |].
  eapply returns_step; [exact Hrun |].
  eapply returns_step.
  { unfold LinExpr.const. rewrite (bind_ok _ _ _ _ _ _ (get_obj_run E s' l o Ho')).
    reflexivity. }
  eapply returns_step.
  { unfold LinExpr.sense. rewrite (bind_ok _ _ _ _ _ _ (get_obj_run E s' l o Ho')).
    reflexivity. }
  unfold spec_violation.
  assert (Hl : lhs == spec_lhs E d) by lra.
  destruct Hs as [Hs | [Hs | Hs]]; rewrite Hs; cbn [String.eqb Ascii.eqb Bool.eqb].
  - eapply returns_ret. split; [| exact Hh].
    apply Qabs_wd. lra.
  - eapply returns_ret. split; [| exact Hh].
    apply py_max_Qmax; lra.
  - eapply returns_ret. split; [| exact Hh].
    apply py_max_Qmax; lra.
Qed.

Lemma violation_raises E s l o d :
  is_linexpr s l o d -> ~ all_known E d ->
  exists s', LinExpr.violation l E s = (Raise TypeError, s') /\
             heap s' = heap s.
Proof.
  intros [Ho Hd] Hk. unfold LinExpr.violation.
  destruct (sum_terms_unknown E d 0 s Hk) as (s' & Hrun & Hh).
  exists s'. split; [| exact Hh].
  rewrite (bind_ok _ _ _ _ _ _ (get_obj_run E s l o Ho)).
  rewrite (bind_ok _ _ _ _ _ _ (read_dict_run E s _ d Hd)).
  now rewrite (bind_raise _ _ _ _ _ _ Hrun).
Qed.

Lemma equals_run E s l o d l' o' d' :
  is_linexpr s l o d -> is_linexpr s l' o' d' ->
  LinExpr.equals l l' E s = (Ok (equals_value o d o' d'), s).
Proof.
  intros [Ho Hd] [Ho' Hd']. unfold LinExpr.equals, equals_value.
  rewrite (bind_ok _ _ _ _ _ _ (get_obj_run E s l o Ho)).
  rewrite (bind_ok _ _ _ _ _ _ (get_obj_run E s l' o' Ho')).
  destruct (negb (__sense o =? __sense o')%string); [reflexivity |].
  rewrite (bind_ok _ _ _ _ _ _ (dict_len_run E s _ d Hd)).
  rewrite (bind_ok _ _ _ _ _ _ (dict_len_run E s _ d' Hd')).
  destruct (negb (length d =? length d')%nat); [reflexivity |].
  destruct (Qle_bool tol (Qabs (__const o - __const o'))); [reflexivity |].
  rewrite (bind_ok _ _ _ _ _ _ (read_dict_run E s _ d' Hd')).
  rewrite (bind_ok _ _ _ _ _ _ (read_dict_run E s _ d Hd)).
  reflexivity.
Qed.

(** ** Facts on dictionaries and on the items left by [add_var] *)

Section DictFacts.
Context {K V : Type} (keq : K -> K -> bool).



Hypothesis keq_refl : forall k, keq k k = true.

Lemma dict_get_set_same (d : list (K * V)) k v : dict_get keq (dict_set keq d k v) k = Some v.
Proof.
  induction d as [|[k' v'] d IH]; cbn.
  - now rewrite keq_refl.
  - destruct (keq k' k) eqn:Hk; cbn; rewrite Hk; [reflexivity | exact IH].
Qed.

Lemma dict_del_set_absent (d : list (K * V)) k v :
  dict_get keq d k = None -> dict_del keq (dict_set keq d k v) k = d.
Proof.
  induction d as [|[k' v'] d IH]; cbn; intros Hg.
  - now rewrite keq_refl.
  - destruct (keq k' k) eqn:Hk; [discriminate |].
    cbn. rewrite Hk. f_equal. apply IH, Hg.
Qed.
End DictFacts.

Lemma Var_key_eqb_refl v : Var_key_eqb v v = true.
Proof. apply Z.eqb_refl. Qed.

Lemma init_returns E s vs cs c sn :
  vs = [] \/ length vs = length cs ->
  returns (LinExpr.__init__ vs cs c sn) E s
    (fun l s' => allocated s s' l c (init_items (EPS E) vs cs) sn).
Proof.
  intros Hlen. eapply returns_eq; [apply init_run, Hlen |].
  apply allocated_grow2.
Qed.

Lemma add_var_twice_items eps d v c :
  0 <= eps -> dict_get Var_key_eqb d v = None ->
  add_var_items eps (add_var_items eps d v c) v (- c) = d.
Proof.
  intros Heps Hg. unfold add_var_items at 2. rewrite Hg.
  unfold add_var_items.
  rewrite (dict_get_set_same Var_key_eqb Var_key_eqb_refl).
  assert (Hb : Qle_bool (- eps) (c + - c) && Qle_bool (c + - c) eps = true).
  { apply andb_true_iff. split; apply Qle_bool_iff; lra. }
  rewrite Hb. apply (dict_del_set_absent Var_key_eqb Var_key_eqb_refl). exact Hg.
Qed.

Lemma dict_contains_false_get (d : coeffs_dict) v :
  dict_contains Var_key_eqb d v = false -> dict_get Var_key_eqb d v = None.
Proof.
  unfold dict_contains. destruct (dict_get Var_key_eqb d v); [discriminate | reflexivity].
Qed.

(** ** Sums of two scaled variables *)

Lemma init_items_single eps a c :
  init_items eps [a] [c] = if Qle_bool (Qabs c) tol then [] else [(a, c)].
Proof.
  unfold init_items, init_step. cbn [combine fold_left fst snd].
  destruct (Qle_bool (Qabs c) tol); reflexivity.
Qed.

Lemma Qle_bool_ext a b c d :
  a == c -> b == d -> Qle_bool a b = Qle_bool c d.
Proof.
  intros H1 H2. destruct (Qle_bool c d) eqn:Hc.
  - apply Qle_bool_iff. apply Qle_bool_iff in Hc. lra.
  - destruct (Qle_bool a b) eqn:Ha; [| reflexivity].
    apply Qle_bool_iff in Ha.
    assert (Hcd : Qle_bool c d = true) by (apply Qle_bool_iff; lra).
    congruence.
Qed.

Lemma close_enough c c' : c == c' -> Qlt_bool tol (Qabs (c - c')) = false.
Proof.
  intros H. apply Qlt_bool_false.
  assert (H0 : c - c' == 0) by lra. rewrite H0. discriminate.
Qed.

Lemma const_close c c' : c == c' -> Qle_bool tol (Qabs (c - c')) = false.
Proof.
  intros H. destruct (Qle_bool tol (Qabs (c - c'))) eqn:Hb; [| reflexivity].
  apply Qle_bool_iff in Hb.
  assert (H0 : c - c' == 0) by lra. rewrite H0 in Hb.
  change (Qabs 0) with 0 in Hb. unfold tol in Hb. lra.
Qed.



Lemma rmul_returns E s a c :
  returns (Var.__rmul__ a (PyReal c)) E s
    (fun l s' => allocated s s' l 0 (init_items (EPS E) [a] [c]) "").
Proof.
  unfold Var.__rmul__, Var.__mul__.
  eapply returns_eq; [apply init_run; right; reflexivity |].
  apply allocated_grow2.
Qed.


(** ** Mutations of one expression leave the others alone *)

Lemma is_linexpr_upd_other s l o d r x :
  is_linexpr s l o d -> r <> l -> r <> __expr o ->
  is_linexpr (upd s r x) l o d.
Proof.
  intros [Ho Hd] H1 H2. split; rewrite lookup_upd_ne by congruence; assumption.
Qed.

Lemma expr_run E s l o :
  heap s !! l = Some (OLinExpr o) -> LinExpr.expr l E s = (Ok (__expr o), s).
Proof.
  intros Ho. unfold LinExpr.expr.
  now rewrite (bind_ok _ _ _ _ _ _ (get_obj_run E s l o Ho)).
Qed.

Lemma dict_delitem_absent E s r d k :
  heap s !! r = Some (ODict d) ->
  dict_contains Var_key_eqb d k = false ->
  dict_delitem r k E s = (Raise KeyError, s).
Proof.
  intros H Hk. unfold dict_delitem.
  now rewrite (bind_ok _ _ _ _ _ _ (read_dict_run E s r d H)), Hk.
Qed.

(** A mutation of [cp] either leaves the state as it is, or overwrites one
    of the two cells of [cp]. *)
Lemma mutate_effect E s cp o d m :
  is_linexpr s cp o d ->
  exists o' d',
    __expr o' = __expr o /\
    is_linexpr (snd (mutate cp m E s)) cp o' d' /\
    (snd (mutate cp m E s) = s \/
     snd (mutate cp m E s) = upd s (__expr o) (ODict d') \/
     snd (mutate cp m E s) = upd s cp (OLinExpr o')).
Proof.
  intros Hl. pose proof Hl as [Ho Hd]. destruct m as [v q | v q | v | q | sn]; cbn [mutate].
  - rewrite (add_var_run E s cp o d v q Hl). cbn [snd].
    eexists o, _. split; [reflexivity |]. split; [| right; left; reflexivity].
    eapply is_linexpr_upd_dict, Hl.
  - rewrite (bind_ok _ _ _ _ _ _ (expr_run E s cp o Ho)).
    rewrite (dict_setitem_run E s _ d v q Hd). cbn [snd].
    eexists o, _. split; [reflexivity |]. split; [| right; left; reflexivity].
    eapply is_linexpr_upd_dict, Hl.
  - rewrite (bind_ok _ _ _ _ _ _ (expr_run E s cp o Ho)).
    destruct (dict_contains Var_key_eqb d v) eqn:Hc.
    + rewrite (dict_delitem_run E s _ d v Hd Hc). cbn [snd].
      eexists o, _. split; [reflexivity |]. split; [| right; left; reflexivity].
      eapply is_linexpr_upd_dict, Hl.
    + rewrite (dict_delitem_absent E s _ d v Hd Hc). cbn [snd].
      exists o, d. split; [reflexivity |]. split; [exact Hl | left; reflexivity].
  - rewrite (add_const_run E s cp o q Ho). cbn [snd].
    eexists _, d. split; [| split; [| right; right; reflexivity]].
    + reflexivity.
    + apply (is_linexpr_upd_obj s cp o d _ Hl). reflexivity.
  - rewrite (set_sense_run E s cp o sn Ho). cbn [snd].
    eexists _, d. split; [| split; [| right; right; reflexivity]].
    + reflexivity.
    + apply (is_linexpr_upd_obj s cp o d _ Hl). reflexivity.
Qed.

Lemma mutate_frame E n s cp m e o d :
  lives_from n s cp -> is_linexpr s e o d ->
  (e < n)%nat -> (__expr o < n)%nat ->
  lives_from n (snd (mutate cp m E s)) cp /\
  is_linexpr (snd (mutate cp m E s)) e o d.
Proof.
  intros (oc & dc & Hc & Hn1 & Hn2) He Hlt1 Hlt2.
  destruct (mutate_effect E s cp oc dc m Hc) as (o' & d' & Hr & Hc' & Heff).
  split.
  - exists o', d'. split; [exact Hc' |]. split; [exact Hn1 | rewrite Hr; exact Hn2].
  - destruct Heff as [-> | [-> | ->]].
    + exact He.
    + apply is_linexpr_upd_other; [exact He | lia | lia].
    + apply is_linexpr_upd_other; [exact He | lia | lia].
Qed.

Lemma mutations_frame E n cp e o d :
  (e < n)%nat -> (__expr o < n)%nat ->
  forall ms s,
    lives_from n s cp -> is_linexpr s e o d ->
    is_linexpr (snd (for_ ms (mutate cp) E s)) e o d.
Proof.
  intros Hlt1 Hlt2. induction ms as [|m ms IH]; intros s Hc He.
  - exact He.
  - cbn [for_]. unfold bind.
    destruct (mutate_frame E n s cp m e o d Hc He Hlt1 Hlt2) as [Hc' He'].
    destruct (mutate cp m E s) as [[[]|x] s1]; cbn [snd] in *.
    + apply IH; assumption.
    + exact He'.
Qed.

Lemma dict_get_set_Z (d : list (Z * Q)) k k' v :
  dict_get Z.eqb (dict_set Z.eqb d k v) k' =
  if (k =? k')%Z then Some v else dict_get Z.eqb d k'.
Proof.
  induction d as [|[k0 v0] d IH]; cbn.
  - reflexivity.
  - destruct (k0 =? k)%Z eqn:H0.
    + apply Z.eqb_eq in H0. subst k0. cbn. destruct (k =? k')%Z; reflexivity.
    + cbn. destruct (k0 =? k')%Z eqn:H1; [| exact IH].
      apply Z.eqb_eq in H1. subst k0. now rewrite Z.eqb_sym, H0.
Qed.

Lemma other_contents_fold_absent its :
  forall acc k,
    ~ In k (map (fun it : Var * Q => idx (fst it)) its) ->
    dict_get Z.eqb
      (fold_left (fun acc it => dict_set Z.eqb acc (idx (fst it)) (snd it))
                 its acc) k =
    dict_get Z.eqb acc k.
Proof.
  induction its as [|[v c] its IH]; intros acc k Hk; cbn [fold_left fst snd].
  - reflexivity.
  - rewrite IH.
    + rewrite dict_get_set_Z. destruct (idx v =? k)%Z eqn:Hv; [| reflexivity].
      apply Z.eqb_eq in Hv. exfalso. apply Hk. left. exact Hv.
    + intros Hin. apply Hk. right. exact Hin.
Qed.

Lemma other_contents_fold_lookup its :
  forall acc v c,
    NoDup (map (fun it : Var * Q => idx (fst it)) its) -> In (v, c) its ->
    dict_get Z.eqb
      (fold_left (fun acc it => dict_set Z.eqb acc (idx (fst it)) (snd it))
                 its acc) (idx v) = Some c.
Proof.
  induction its as [|[v0 c0] its IH]; intros acc v c Hnd Hin; [destruct Hin |].
  cbn [map fst] in Hnd. apply NoDup_cons in Hnd. destruct Hnd as [Hnotin Hnd].
  cbn [fold_left fst snd]. destruct Hin as [Heq | Hin].
  - injection Heq as -> ->.
    rewrite other_contents_fold_absent.
    + rewrite dict_get_set_Z, Z.eqb_refl. reflexivity.
    + intros Hin. apply Hnotin. apply list_elem_of_In. exact Hin.
  - apply IH; assumption.
Qed.

Lemma other_contents_lookup d v c :
  keys_nodup d -> In (v, c) d ->
  dict_get Z.eqb (LinExpr.other_contents d) (idx v) = Some c.
Proof. intros Hnd Hin. now apply other_contents_fold_lookup. Qed.

Lemma equals_loop_true oc its :
  (forall v c, In (v, c) its ->
     exists c', dict_get Z.eqb oc (idx v) = Some c' /\ c == c') ->
  LinExpr.equals_loop oc its = true.
Proof.
  induction its as [|[v c] its IH]; intros H; cbn [LinExpr.equals_loop].
  - reflexivity.
  - destruct (H v c (or_introl eq_refl)) as (c' & -> & Hc).
    rewrite close_enough by exact Hc.
    apply IH. intros v' c'' Hin. apply H. right. exact Hin.
Qed.

Lemma equals_value_same_items o o' d :
  keys_nodup d -> __const o == __const o' -> __sense o = __sense o' ->
  equals_value o d o' d = true.
Proof.
  intros Hnd Hc Hs. unfold equals_value.
  rewrite Hs, String.eqb_refl, Nat.eqb_refl. cbn [negb].
  rewrite const_close by exact Hc.
  apply equals_loop_true. intros v c Hin. exists c. split; [| reflexivity].
  now apply other_contents_lookup.
Qed.

Lemma copy_returns E s l o d :
  is_linexpr s l o d ->
  returns (LinExpr.copy l) E s
    (fun cp s' => allocated s s' cp (__const o) d (__sense o)).
Proof.
  intros Hl. eapply returns_eq; [apply copy_run, Hl |]. apply allocated_grow3.
Qed.

(** ** The violation of [x + y <= k], [x + y == k], [x + y >= k] *)

Lemma init_items_pair eps x y :
  idx x <> idx y -> init_items eps [x; y] [1; 1] = [(x, 1); (y, 1)].
Proof.
  intros Hne. unfold init_items, init_step, add_var_items.
  cbn [combine fold_left fst snd dict_get dict_set].
  change (Qle_bool (Qabs 1) tol) with false. cbn [dict_get dict_set].
  unfold Var_key_eqb. apply Z.eqb_neq in Hne. rewrite Hne. reflexivity.
Qed.

Lemma var_add_var_run E s x y :
  idx x <> idx y ->
  Var.__add__ x (PyVar y) E s =
  (Ok (S (length (heap s))),
   grow s [ODict [(x, 1); (y, 1)];
           OLinExpr (mkLinExpr 0 (length (heap s)) "")]).
Proof.
  intros Hne. unfold Var.__add__.
  rewrite (init_run E s [x; y] [1; 1] 0 "" (or_intror eq_refl)).
  now rewrite init_items_pair.
Qed.

Lemma all_known_pair E x y a b :
  value_of E x = Some a -> value_of E y = Some b ->
  all_known E [(x, 1); (y, 1)].
Proof.
  intros Hx Hy v c [Heq | [Heq | []]]; injection Heq as <- <-; congruence.
Qed.

Lemma violation_of_relation E s x y k sn a b
    (op : loc -> pyval -> M loc) :
  (forall a b, op a b =
     (result <- LinExpr.__sub__ a b ;; LinExpr.set_sense result sn ;;; ret result)) ->
  (sn = "=" \/ sn = "<" \/ sn = ">")%string ->
  idx x <> idx y -> value_of E x = Some a -> value_of E y = Some b ->
  returns
    (e <- Var.__add__ x (PyVar y) ;; c <- op e (PyReal k) ;; LinExpr.violation c)
    E s
    (fun r _ =>
       r == spec_violation E (mkLinExpr (0 + - k) 0%nat sn) [(x, 1); (y, 1)]).
Proof.
  intros Hop Hsn Hne Hx Hy.
  eapply returns_step; [apply var_add_var_run, Hne |].
  eapply returns_step.
  { eapply relational_real_run; [exact Hop | apply is_linexpr_grow_new]. }
  cbn [__const].
  eapply returns_mono.
  { eapply violation_returns.
    - apply is_linexpr_copy_new.
    - eapply all_known_pair; eassumption.
    - exact Hsn. }
  intros r s' [Hr _]. exact Hr.
Qed.

(** ** The methods keep the keys of a mapping pairwise different *)

Lemma keys_dict_del_incl (d : coeffs_dict) k z :
  In z (map (fun it => idx (fst it)) (dict_del Var_key_eqb d k)) ->
  In z (map (fun it => idx (fst it)) d).
Proof.
  induction d as [|[k' v'] d IH]; cbn; [tauto |].
  destruct (Var_key_eqb k' k); cbn; tauto.
Qed.

Lemma keys_nodup_dict_del d k :
  keys_nodup d -> keys_nodup (dict_del Var_key_eqb d k).
Proof.
  unfold keys_nodup. induction d as [|[k' v'] d IH]; cbn; intros Hnd.
  - constructor.
  - apply NoDup_cons in Hnd. destruct Hnd as [Hni Hnd].
    destruct (Var_key_eqb k' k); [exact Hnd |].
    cbn. apply NoDup_cons. split; [| apply IH, Hnd].
    intros Hin. apply Hni. apply list_elem_of_In.
    apply list_elem_of_In in Hin. eapply keys_dict_del_incl, Hin.
Qed.

Lemma keys_dict_set_incl (d : coeffs_dict) k v z :
  In z (map (fun it => idx (fst it)) (dict_set Var_key_eqb d k v)) ->
  z = idx k \/ In z (map (fun it => idx (fst it)) d).
Proof.
  induction d as [|[k' v'] d IH]; cbn.
  - intros [H | []]. left. congruence.
  - destruct (Var_key_eqb k' k); cbn; tauto.
Qed.

Lemma keys_nodup_dict_set d k v :
  keys_nodup d -> keys_nodup (dict_set Var_key_eqb d k v).
Proof.
  unfold keys_nodup. induction d as [|[k' v'] d IH]; cbn; intros Hnd.
  - apply NoDup_singleton.
  - apply NoDup_cons in Hnd. destruct Hnd as [Hni Hnd].
    destruct (Var_key_eqb k' k) eqn:Hk; cbn.
    + apply NoDup_cons. split; assumption.
    + apply NoDup_cons. split; [| apply IH, Hnd].
      intros Hin. apply list_elem_of_In in Hin.
      apply keys_dict_set_incl in Hin. destruct Hin as [Hz | Hin].
      * unfold Var_key_eqb in Hk. apply Z.eqb_neq in Hk. congruence.
      * apply Hni. apply list_elem_of_In. exact Hin.
Qed.

Lemma keys_nodup_add_var_items eps d v c :
  keys_nodup d -> keys_nodup (add_var_items eps d v c).
Proof.
  intros Hnd. unfold add_var_items.
  destruct (dict_get Var_key_eqb d v) as [old|].
  - destruct (Qle_bool (- eps) (old + c) && Qle_bool (old + c) eps).
    + now apply keys_nodup_dict_del.
    + now apply keys_nodup_dict_set.
  - now apply keys_nodup_dict_set.
Qed.

Lemma keys_nodup_init_items eps vs cs : keys_nodup (init_items eps vs cs).
Proof.
  unfold init_items.
  assert (H : forall l d, keys_nodup d -> keys_nodup (fold_left (init_step eps) l d)).
  { induction l as [|vc l IH]; intros d Hd; cbn; [exact Hd |].
    apply IH. unfold init_step. destruct (Qle_bool (Qabs (snd vc)) tol); [exact Hd |].
    now apply keys_nodup_add_var_items. }
  apply H. constructor.
Qed.

Lemma keys_nodup_add_expr_items eps d de coeff :
  keys_nodup d -> keys_nodup (add_expr_items eps d de coeff).
Proof.
  unfold add_expr_items. revert d.
  induction de as [|it de IH]; intros d Hd; cbn; [exact Hd |].
  apply IH. now apply keys_nodup_add_var_items.
Qed.

(** ** The length check of the constructor *)

Lemma init_mismatch_run E s v vs cs c sn :
  length (v :: vs) <> length cs ->
  LinExpr.__init__ (v :: vs) cs c sn E s =
  (Raise ValueError,
   grow s [ODict []; OLinExpr (mkLinExpr c (length (heap s)) sn)]).
Proof.
  intros Hne. unfold LinExpr.__init__.
  rewrite (bind_ok _ _ _ _ _ _ (alloc_run E s (ODict []))).
  rewrite (bind_ok _ _ _ _ _ _ (alloc_run E _ _)).
  rewrite grow_grow. cbn [app].
  apply Nat.eqb_neq in Hne. rewrite Hne. cbn [negb].
  reflexivity.
Qed.

(** ** The concrete inputs *)

Lemma state_le_is_linexpr : is_linexpr state_le 1%nat obj_le items_xy.
Proof. split; reflexivity. Qed.

Lemma items_xy_known a b : all_known (env_xy (Some a) (Some b)) items_xy.
Proof.
  intros v c [H | [H | []]]; injection H as <- <-; discriminate.
Qed.

Lemma items_xy_nodup : keys_nodup items_xy.
Proof.
  unfold keys_nodup, items_xy. cbn.
  apply NoDup_cons. split; [| apply NoDup_singleton].
  intros H. apply list_elem_of_In in H. destruct H as [H | []]. discriminate H.
Qed.

(** ** [isinstance] on a list of classes *)

Lemma isinstance_list_raises v ts :
  isinstance v (CI_list ts) = Raise TypeError.
Proof. reflexivity. Qed.

(** ** Lookups after [add_var] *)

Lemma Var_key_eqb_trans_false k v w :
  Var_key_eqb k v = true -> Var_key_eqb v w = false -> Var_key_eqb k w = false.
Proof.
  unfold Var_key_eqb. intros H1 H2. apply Z.eqb_eq in H1. now rewrite H1.
Qed.

Lemma dict_get_set_other (d : coeffs_dict) v w c :
  Var_key_eqb v w = false ->
  dict_get Var_key_eqb (dict_set Var_key_eqb d v c) w = dict_get Var_key_eqb d w.
Proof.
  intros Hvw. induction d as [|[k c0] d IH]; cbn.
  - now rewrite Hvw.
  - destruct (Var_key_eqb k v) eqn:Hkv; cbn.
    + now rewrite (Var_key_eqb_trans_false _ _ _ Hkv Hvw).
    + destruct (Var_key_eqb k w); [reflexivity | exact IH].
Qed.

Lemma dict_get_del_other (d : coeffs_dict) v w :
  Var_key_eqb v w = false ->
  dict_get Var_key_eqb (dict_del Var_key_eqb d v) w = dict_get Var_key_eqb d w.
Proof.
  intros Hvw. induction d as [|[k c0] d IH]; cbn.
  - reflexivity.
  - destruct (Var_key_eqb k v) eqn:Hkv; cbn.
    + now rewrite (Var_key_eqb_trans_false _ _ _ Hkv Hvw).
    + destruct (Var_key_eqb k w); [reflexivity | exact IH].
Qed.

Lemma dict_get_absent_key (d : coeffs_dict) v :
  ~ In (idx v) (map (fun it => idx (fst it)) d) ->
  dict_get Var_key_eqb d v = None.
Proof.
  induction d as [|[k c0] d IH]; cbn; intros Hni; [reflexivity |].
  destruct (Var_key_eqb k v) eqn:Hk.
  - exfalso. apply Hni. left. now apply Z.eqb_eq.
  - apply IH. intros Hin. apply Hni. right. exact Hin.
Qed.

Lemma dict_get_del_same (d : coeffs_dict) v :
  keys_nodup d -> dict_get Var_key_eqb (dict_del Var_key_eqb d v) v = None.
Proof.
  unfold keys_nodup. induction d as [|[k c0] d IH]; cbn; intros Hnd.
  - reflexivity.
  - apply NoDup_cons in Hnd. destruct Hnd as [Hni Hnd].
    destruct (Var_key_eqb k v) eqn:Hk.
    + apply dict_get_absent_key. intros Hin. apply Hni.
      apply list_elem_of_In. apply Z.eqb_eq in Hk. cbn. now rewrite Hk.
    + cbn. rewrite Hk. now apply IH.
Qed.

Lemma add_var_items_lookup eps d v c :
  keys_nodup d ->
  dict_get Var_key_eqb (add_var_items eps d v c) v =
  after_add_var eps (dict_get Var_key_eqb d v) c.
Proof.
  intros Hnd. unfold add_var_items, after_add_var.
  destruct (dict_get Var_key_eqb d v) as [old|].
  - destruct (Qle_bool (- eps) (old + c) && Qle_bool (old + c) eps).
    + now apply dict_get_del_same.
    + apply (dict_get_set_same Var_key_eqb Var_key_eqb_refl).
  - apply (dict_get_set_same Var_key_eqb Var_key_eqb_refl).
Qed.

Lemma add_var_items_other eps d v c w :
  idx w <> idx v ->
  dict_get Var_key_eqb (add_var_items eps d v c) w = dict_get Var_key_eqb d w.
Proof.
  intros Hne.
  assert (Hvw : Var_key_eqb v w = false).
  { unfold Var_key_eqb. apply Z.eqb_neq. congruence. }
  unfold add_var_items.
  destruct (dict_get Var_key_eqb d v) as [old|].
  - destruct (Qle_bool (- eps) (old + c) && Qle_bool (old + c) eps).
    + now apply dict_get_del_other.
    + now apply dict_get_set_other.
  - now apply dict_get_set_other.
Qed.

(** ** More on [violation] and [x] *)

Lemma state_plain_is_linexpr : is_linexpr state_plain 1%nat obj_plain items_xy.
Proof. split; reflexivity. Qed.

Lemma violation_invalid_sense E s l o d :
  is_linexpr s l o d -> all_known E d ->
  String.eqb (__sense o) "=" = false ->
  String.eqb (__sense o) "<" = false ->
  String.eqb (__sense o) ">" = false ->
  exists s', LinExpr.violation l E s = (Raise ValueError, s') /\
             heap s' = heap s.
Proof.
  intros [Ho Hd] Hk H1 H2 H3. unfold LinExpr.violation.
  destruct (sum_terms_run E d 0 s Hk) as (lhs & s' & Hrun & _ & Hh).
  assert (Ho' : heap s' !! l = Some (OLinExpr o)) by (rewrite Hh; exact Ho).
  exists s'. split; [| exact Hh].
  rewrite (bind_ok _ _ _ _ _ _ (get_obj_run E s l o Ho)).
  rewrite (bind_ok _ _ _ _ _ _ (read_dict_run E s _ d Hd)).
  rewrite (bind_ok _ _ _ _ _ _ Hrun).
  unfold LinExpr.const, LinExpr.sense.
  unfold bind at 1. unfold bind at 1.
  rewrite (get_obj_run E s' l o Ho'). unfold ret at 1.
  unfold bind at 1. unfold bind at 1.
  rewrite (get_obj_run E s' l o Ho'). unfold ret at 1.
  rewrite H1, H2, H3. reflexivity.
Qed.

Lemma spec_violation_nonneg E o d : 0 <= spec_violation E o d.
Proof.
  unfold spec_violation.
  destruct (String.eqb (__sense o) "="); [apply Qabs_nonneg |].
  destruct (String.eqb (__sense o) "<"); apply Q.le_max_r.
Qed.

Lemma Qabs_zero_iff q : Qabs q == 0 <-> q == 0.
Proof.
  split; intros H.
  - assert (H1 : Qabs q <= 0) by (rewrite H; apply Qle_refl).
    apply Qabs_Qle_condition in H1. lra.
  - rewrite H. reflexivity.
Qed.

Lemma Qmax_zero_iff q : Qmax q 0 == 0 <-> q <= 0.
Proof.
  destruct (Q.max_spec q 0) as [[Hlt Hm] | [Hle Hm]]; rewrite Hm; lra.
Qed.

Lemma spec_violation_zero_iff E o d :
  spec_violation E o d == 0 <-> satisfied E o d.
Proof.
  unfold spec_violation, satisfied.
  destruct (String.eqb (__sense o) "=").
  - rewrite Qabs_zero_iff. lra.
  - destruct (String.eqb (__sense o) "<"); rewrite Qmax_zero_iff; lra.
Qed.

Lemma x_value_known E :
  forall its acc,
    all_known E its ->
    exists q, x_value E its acc = Some q /\ q == acc + spec_lhs E its.
Proof.
  induction its as [|[v c] its IH]; intros acc Hk.
  - exists acc. split; [reflexivity |]. cbn. lra.
  - destruct (all_known_cons _ _ _ _ Hk) as [[q Hq] Hk'].
    cbn [x_value]. rewrite Hq.
    destruct (IH (acc + q * c) Hk') as (r & Hr & Hrq).
    exists r. split; [exact Hr |].
    cbn [spec_lhs fold_right fst snd]. rewrite Hq. fold (spec_lhs E its). lra.
Qed.

(** ** [__add__] and [__sub__] on every kind of operand *)

Lemma add_expr_on_copy_run E s o d e oe de coeff x :
  is_linexpr s e oe de ->
  LinExpr.add_expr (S (length (heap s))) e coeff E
    (grow s [x; OLinExpr (mkLinExpr (__const o) (S (S (length (heap s))))
                                    (__sense o)); ODict d]) =
  (Ok tt,
   grow s [x;
           OLinExpr (mkLinExpr (__const o + __const oe * coeff)
                               (S (S (length (heap s)))) (__sense o));
           ODict (add_expr_items (EPS E) d de coeff)]).
Proof.
  intros He. set (s1 := grow s _).
  pose proof (is_linexpr_copy_new s (__const o) (__sense o) d x) as Hc.
  fold s1 in Hc.
  assert (He1 : is_linexpr s1 e oe de).
  { eapply is_linexpr_extends; [exact He | apply extends_grow]. }
  destruct (is_linexpr_lt _ _ _ _ He) as [Hlt1 Hlt2].
  rewrite (add_expr_run E s1 _ _ d e oe de coeff Hc He1 ltac:(lia) ltac:(cbn; lia)).
  cbn [__const __expr __sense]. unfold s1.
  rewrite upd_grow_1, upd_grow_2. reflexivity.
Qed.

Lemma add_var_on_copy_run E s c sn d v q x :
  LinExpr.add_var (S (length (heap s))) v q E
    (grow s [x; OLinExpr (mkLinExpr c (S (S (length (heap s)))) sn); ODict d]) =
  (Ok tt,
   grow s [x; OLinExpr (mkLinExpr c (S (S (length (heap s)))) sn);
           ODict (add_var_items (EPS E) d v q)]).
Proof.
  rewrite (add_var_run E _ _ _ d v q (is_linexpr_copy_new s c sn d x)).
  cbn [__expr]. now rewrite upd_grow_2.
Qed.

Lemma add_const_on_copy_run E s c sn d q x :
  LinExpr.add_const (S (length (heap s))) q E
    (grow s [x; OLinExpr (mkLinExpr c (S (S (length (heap s)))) sn); ODict d]) =
  (Ok tt,
   grow s [x; OLinExpr (mkLinExpr (c + q) (S (S (length (heap s)))) sn);
           ODict d]).
Proof.
  rewrite (add_const_run E _ _ _ q (lookup_grow_1 _ _ _ _)).
  cbn [__const __expr __sense]. now rewrite upd_grow_1.
Qed.

Lemma add_run E s self o d other t :
  is_linexpr s self o d -> denotes s other t ->
  LinExpr.__add__ self other E s =
  (Ok (S (length (heap s))),
   grow s [ODict [];
           OLinExpr (mkLinExpr (fst (added (EPS E) (__const o) d t))
                               (S (S (length (heap s)))) (__sense o));
           ODict (snd (added (EPS E) (__const o) d t))]).
Proof.
  intros Hl Ht. unfold LinExpr.__add__.
  rewrite (bind_ok _ _ _ _ _ _ (copy_run E s self o d Hl)).
  destruct other as [v | e | q | str |], t as [v' | ce de | q'];
    cbn [denotes] in Ht; try contradiction; cbn [added fst snd].
  - subst v'. now rewrite (bind_ok _ _ _ _ _ _ (add_var_on_copy_run E s _ _ d v 1 _)).
  - destruct Ht as (oe & He & <-).
    now rewrite (bind_ok _ _ _ _ _ _ (add_expr_on_copy_run E s o d e oe de 1 _ He)).
  - subst q'. now rewrite (bind_ok _ _ _ _ _ _ (add_const_on_copy_run E s _ _ d q _)).
Qed.

Lemma sub_run E s self o d other t :
  is_linexpr s self o d -> denotes s other t ->
  LinExpr.__sub__ self other E s =
  (Ok (S (length (heap s))),
   grow s [ODict [];
           OLinExpr (mkLinExpr (fst (subtracted (EPS E) (__const o) d t))
                               (S (S (length (heap s)))) (__sense o));
           ODict (snd (subtracted (EPS E) (__const o) d t))]).
Proof.
  intros Hl Ht. unfold LinExpr.__sub__.
  rewrite (bind_ok _ _ _ _ _ _ (copy_run E s self o d Hl)).
  destruct other as [v | e | q | str |], t as [v' | ce de | q'];
    cbn [denotes] in Ht; try contradiction; cbn [subtracted fst snd].
  - subst v'. now rewrite (bind_ok _ _ _ _ _ _ (add_var_on_copy_run E s _ _ d v (-1) _)).
  - destruct Ht as (oe & He & <-).
    now rewrite (bind_ok _ _ _ _ _ _ (add_expr_on_copy_run E s o d e oe de (-1) _ He)).
  - subst q'. now rewrite (bind_ok _ _ _ _ _ _ (add_const_on_copy_run E s _ _ d (- q) _)).
Qed.

Lemma add_unsupported_run E s self o d other :
  is_linexpr s self o d -> unsupported other ->
  LinExpr.__add__ self other E s =
  (Raise TypeError,
   grow s [ODict [];
           OLinExpr (mkLinExpr (__const o) (S (S (length (heap s)))) (__sense o));
           ODict d]) /\
  LinExpr.__sub__ self other E s =
  (Raise TypeError,
   grow s [ODict [];
           OLinExpr (mkLinExpr (__const o) (S (S (length (heap s)))) (__sense o));
           ODict d]).
Proof.
  intros Hl Hu. unfold LinExpr.__add__, LinExpr.__sub__.
  rewrite !(bind_ok _ _ _ _ _ _ (copy_run E s self o d Hl)).
  destruct other; cbn in Hu; try contradiction; split; reflexivity.
Qed.

Lemma denotes_extends s s' other t :
  denotes s other t -> extends s s' -> denotes s' other t.
Proof.
  intros Ht Hx. destruct other, t; cbn in *; try assumption.
  destruct Ht as (oe & He & Hc). exists oe. split; [| exact Hc].
  eapply is_linexpr_extends; eassumption.
Qed.

(** ** The in-place operators *)








Lemma keys_nodup_subtracted eps c d t :
  keys_nodup d -> keys_nodup (snd (subtracted eps c d t)).
Proof.
  intros Hnd. destruct t; cbn [subtracted snd].
  - now apply keys_nodup_add_var_items.
  - now apply keys_nodup_add_expr_items.
  - exact Hnd.
Qed.


(** ** An expression minus itself *)

Lemma in_band_zero eps q :
  0 <= eps -> q == 0 -> Qle_bool (- eps) q && Qle_bool q eps = true.
Proof.
  intros He Hq. apply andb_true_iff. split; apply Qle_bool_iff; lra.
Qed.

Lemma add_expr_items_self eps d :
  0 <= eps -> add_expr_items eps d d (-1) = [].
Proof.
  intros He. unfold add_expr_items.
  induction d as [|[v c] d IH]; [reflexivity |].
  cbn [fold_left fst snd]. unfold add_var_items at 2.
  cbn [dict_get]. rewrite Var_key_eqb_refl.
  rewrite in_band_zero by (try assumption; lra).
  cbn [dict_del]. rewrite Var_key_eqb_refl. exact IH.
Qed.

Lemma isub_self_run E s e c r sn v c0 d :
  0 <= EPS E ->
  is_linexpr s e (mkLinExpr c r sn) ((v, c0) :: d) ->
  LinExpr.__isub__ e (PyLinExpr e) E s =
  (Raise RuntimeError,
   upd (upd s e (OLinExpr (mkLinExpr (c + c * -1) r sn))) r (ODict d)).
Proof.
  intros He Hl. pose proof Hl as [Ho Hd]. cbn [__expr] in Hd.
  unfold LinExpr.__isub__, LinExpr.add_expr.
  apply bind_raise.
  rewrite (bind_ok _ _ _ _ _ _ (get_obj_run E s e _ Ho)).
  unfold LinExpr.const at 1. unfold bind at 1. unfold bind at 1.
  rewrite (get_obj_run E s e _ Ho). unfold ret at 1.
  rewrite (bind_ok _ _ _ _ _ _ (set_obj_run E s e _ _ Ho)).
  cbn [__const __expr __sense].
  set (o' := mkLinExpr (c + c * -1) r sn). set (s1 := upd s e (OLinExpr o')).
  assert (Hl1 : is_linexpr s1 e o' ((v, c0) :: d)).
  { apply (is_linexpr_upd_obj s e _ _ o' Hl). reflexivity. }
  rewrite (bind_ok _ _ _ _ _ _ (expr_run E s1 e o' (proj1 Hl1))).
  cbn [__expr o']. unfold for_items.
  rewrite (bind_ok _ _ _ _ _ _ (read_dict_run E s1 r _ (proj2 Hl1))).
  cbn [iter_items length].
  rewrite (bind_ok _ _ _ _ _ _ (dict_len_run E s1 r _ (proj2 Hl1))).
  cbn [length]. rewrite Nat.eqb_refl. cbn [negb].
  rewrite (bind_ok _ _ _ _ _ _ (add_var_run E s1 e o' _ v (c0 * -1) Hl1)).
  unfold add_var_items. cbn [dict_get]. rewrite Var_key_eqb_refl.
  rewrite in_band_zero by (try assumption; lra).
  cbn [dict_del __expr o']. rewrite Var_key_eqb_refl.
  set (s2 := upd s1 r (ODict d)).
  assert (Hd2 : heap s2 !! r = Some (ODict d)).
  { eapply lookup_upd_eq, (proj2 Hl1). }
  destruct d as [|it d'].
  - cbn [iter_items].
    rewrite (bind_ok _ _ _ _ _ _ (dict_len_run E s2 r _ Hd2)). reflexivity.
  - cbn [iter_items]. destruct it as [k q].
    rewrite (bind_ok _ _ _ _ _ _ (dict_len_run E s2 r _ Hd2)).
    cbn [length].
    replace (S (length d') =? S (S (length d')))%nat with false.
    + reflexivity.
    + symmetry. apply Nat.eqb_neq. lia.
Qed.

(** ** Multiplication by a number *)

Lemma dict_get_app_absent (p l : coeffs_dict) k :
  ~ In (idx k) (map (fun it => idx (fst it)) p) ->
  dict_get Var_key_eqb (p ++ l) k = dict_get Var_key_eqb l k.
Proof.
  induction p as [|[k' c'] p IH]; cbn; intros Hni; [reflexivity |].
  destruct (Var_key_eqb k' k) eqn:Hk.
  - exfalso. apply Hni. left. now apply Z.eqb_eq.
  - apply IH. tauto.
Qed.

Lemma dict_set_app_absent (p l : coeffs_dict) k v :
  ~ In (idx k) (map (fun it => idx (fst it)) p) ->
  dict_set Var_key_eqb (p ++ l) k v = p ++ dict_set Var_key_eqb l k v.
Proof.
  induction p as [|[k' c'] p IH]; cbn; intros Hni; [reflexivity |].
  destruct (Var_key_eqb k' k) eqn:Hk.
  - exfalso. apply Hni. left. now apply Z.eqb_eq.
  - f_equal. apply IH. tauto.
Qed.

Lemma keys_scale_items q d :
  map (fun it => idx (fst it)) (scale_items q d) =
  map (fun it => idx (fst it)) d.
Proof. unfold scale_items. rewrite map_map. reflexivity. Qed.

Lemma scale_keys_run E r q :
  forall post pre s,
    keys_nodup (pre ++ post) ->
    heap s !! r = Some (ODict (scale_items q pre ++ post)) ->
    LinExpr.scale_keys r (map fst post) q E s =
    (Ok tt, upd s r (ODict (scale_items q (pre ++ post)))).
Proof.
  induction post as [|[k c] post IH]; intros pre s Hnd Hd.
  - cbn [map LinExpr.scale_keys]. unfold ret. f_equal. symmetry.
    apply upd_same. rewrite app_nil_r in *. exact Hd.
  - cbn [map fst LinExpr.scale_keys].
    assert (Hni : ~ In (idx k) (map (fun it => idx (fst it)) (scale_items q pre))).
    { rewrite keys_scale_items. unfold keys_nodup in Hnd.
      rewrite map_app in Hnd. apply NoDup_app in Hnd.
      destruct Hnd as (_ & Hdisj & _). intros Hin.
      apply (Hdisj (idx k)); [now apply list_elem_of_In |].
      cbn. left. }
    assert (Hg : dict_get Var_key_eqb (scale_items q pre ++ (k, c) :: post) k
                 = Some c).
    { rewrite dict_get_app_absent by exact Hni. cbn.
      now rewrite Var_key_eqb_refl. }
    rewrite (bind_ok _ _ _ _ _ _ (dict_getitem_run E s r _ k c Hd Hg)).
    rewrite (bind_ok _ _ _ _ _ _ (dict_setitem_run E s r _ k (c * q) Hd)).
    rewrite dict_set_app_absent by exact Hni.
    cbn [dict_set]. rewrite Var_key_eqb_refl.
    rewrite (IH (pre ++ [(k, c)])).
    + rewrite upd_upd, <- app_assoc. reflexivity.
    + now rewrite <- app_assoc.
    + unfold scale_items. rewrite map_app, <- app_assoc. cbn [map app fst snd].
      eapply lookup_upd_eq, Hd.
Qed.

Lemma mul_run E s self o d q :
  is_linexpr s self o d -> keys_nodup d ->
  LinExpr.__mul__ self (PyReal q) E s =
  (Ok (S (length (heap s))),
   grow s [ODict [];
           OLinExpr (mkLinExpr (__const o * q) (S (S (length (heap s))))
                               (__sense o));
           ODict (scale_items q d)]).
Proof.
  intros Hl Hnd. unfold LinExpr.__mul__.
  rewrite (bind_ok _ _ _ _ _ _ (copy_run E s self o d Hl)).
  set (s1 := grow s _).
  rewrite (bind_ok _ _ _ _ _ _ (get_obj_run E s1 _ _ (lookup_grow_1 _ _ _ _))).
  rewrite (bind_ok _ _ _ _ _ _ (set_obj_run E s1 _ _ _ (lookup_grow_1 _ _ _ _))).
  cbn [__const __expr __sense]. unfold s1. rewrite upd_grow_1.
  set (s2 := grow s _).
  rewrite (bind_ok _ _ _ _ _ _ (read_dict_run E s2 _ d (lookup_grow_2 _ _ _ _ _))).
  rewrite (bind_ok _ _ _ _ _ _
    (scale_keys_run E _ q d [] s2 Hnd (lookup_grow_2 _ _ _ _ _))).
  unfold s2. rewrite upd_grow_2. reflexivity.
Qed.

Lemma mul_returns E s self o d q :
  is_linexpr s self o d -> keys_nodup d ->
  returns (LinExpr.__mul__ self (PyReal q)) E s
    (fun r s' =>
       allocated s s' r (__const o * q) (scale_items q d) (__sense o)).
Proof.
  intros Hl Hnd. eapply returns_eq; [apply (mul_run E s self o d q Hl Hnd) |].
  apply allocated_grow3.
Qed.

Lemma keys_nodup_scale_items q d : keys_nodup d -> keys_nodup (scale_items q d).
Proof. unfold keys_nodup. now rewrite keys_scale_items. Qed.

Lemma equals_value_pointwise o d o' d' :
  keys_nodup d' -> length d = length d' ->
  __sense o = __sense o' -> __const o == __const o' ->
  (forall v c, In (v, c) d ->
     exists v' c', In (v', c') d' /\ idx v' = idx v /\ c == c') ->
  equals_value o d o' d' = true.
Proof.
  intros Hnd Hlen Hs Hc Hall. unfold equals_value.
  rewrite Hs, String.eqb_refl, Hlen, Nat.eqb_refl. cbn [negb].
  rewrite const_close by exact Hc.
  apply equals_loop_true. intros v c Hin.
  destruct (Hall v c Hin) as (v' & c' & Hin' & Hidx & Hcc).
  exists c'. split; [| exact Hcc].
  rewrite <- Hidx. now apply other_contents_lookup.
Qed.

(** ** [equals] is symmetric *)

Lemma other_contents_fold_found its :
  forall (acc : list (Z * Q)) k c,
    dict_get Z.eqb
      (fold_left (fun acc (it : Var * Q) =>
                    dict_set Z.eqb acc (idx (fst it)) (snd it))
                 its acc) k = Some c ->
    dict_get Z.eqb acc k = Some c \/
    exists v, In (v, c) its /\ idx v = k.
Proof.
  induction its as [|[v0 c0] its IH]; intros acc k c H; cbn [fold_left fst snd] in H.
  - left. exact H.
  - apply IH in H. destruct H as [H | (v & Hin & Hk)].
    + rewrite dict_get_set_Z in H. destruct (idx v0 =? k)%Z eqn:Hv.
      * right. injection H as <-. exists v0. split; [left; reflexivity |].
        now apply Z.eqb_eq.
      * left. exact H.
    + right. exists v. split; [right; exact Hin | exact Hk].
Qed.

Lemma other_contents_found d k c :
  dict_get Z.eqb (LinExpr.other_contents d) k = Some c ->
  exists v, In (v, c) d /\ idx v = k.
Proof.
  intros H. apply other_contents_fold_found in H.
  destruct H as [H | H]; [discriminate H | exact H].
Qed.

Lemma equals_loop_matched d d' :
  keys_nodup d' ->
  (LinExpr.equals_loop (LinExpr.other_contents d') d = true <-> matched d d').
Proof.
  intros Hnd. unfold matched. induction d as [|[v c] d IH]; cbn [LinExpr.equals_loop].
  - split; [intros _ v c [] | reflexivity].
  - destruct (dict_get Z.eqb (LinExpr.other_contents d') (idx v)) as [c'|] eqn:Hg.
    + destruct (Qlt_bool tol (Qabs (c - c'))) eqn:Hc.
      * split; [discriminate |]. intros H.
        destruct (H v c (or_introl eq_refl)) as (v' & c'' & Hin & Hidx & Hle).
        rewrite <- Hidx in Hg.
        rewrite (other_contents_lookup d' v' c'' Hnd Hin) in Hg.
        injection Hg as ->. apply Qlt_bool_iff in Hc. lra.
      * rewrite IH. split.
        -- intros H v0 c0 [Heq | Hin]; [| now apply H].
           injection Heq as <- <-.
           destruct (other_contents_found d' _ _ Hg) as (v' & Hin' & Hidx).
           exists v', c'. split; [exact Hin' |]. split; [exact Hidx |].
           now apply Qlt_bool_false.
        -- intros H v0 c0 Hin. apply H. right. exact Hin.
    + split; [discriminate |]. intros H.
      destruct (H v c (or_introl eq_refl)) as (v' & c'' & Hin & Hidx & _).
      rewrite <- Hidx in Hg.
      rewrite (other_contents_lookup d' v' c'' Hnd Hin) in Hg. discriminate.
Qed.

Lemma key_in_items (d : coeffs_dict) k :
  In k (map (fun it => idx (fst it)) d) ->
  exists v c, In (v, c) d /\ idx v = k.
Proof.
  intros H. apply in_map_iff in H. destruct H as ([v c] & Hk & Hin).
  exists v, c. split; [exact Hin | exact Hk].
Qed.

Lemma nodup_same_key (d : coeffs_dict) v c v' c' :
  keys_nodup d -> In (v, c) d -> In (v', c') d -> idx v = idx v' -> c = c'.
Proof.
  intros Hnd H1 H2 Hidx.
  pose proof (other_contents_lookup d v c Hnd H1) as L1.
  pose proof (other_contents_lookup d v' c' Hnd H2) as L2.
  rewrite Hidx in L1. congruence.
Qed.

Lemma matched_sym d d' :
  keys_nodup d -> keys_nodup d' -> length d = length d' ->
  matched d d' -> matched d' d.
Proof.
  intros Hnd Hnd' Hlen Hm v' c' Hin'.
  assert (Hincl : incl (map (fun it => idx (fst it)) d)
                       (map (fun it => idx (fst it)) d')).
  { intros k Hk. destruct (key_in_items d k Hk) as (v & c & Hin & <-).
    destruct (Hm v c Hin) as (w & cw & Hw & Hidx & _).
    rewrite <- Hidx. apply in_map_iff. exists (w, cw). auto. }
  assert (Hincl' : incl (map (fun it => idx (fst it)) d')
                        (map (fun it => idx (fst it)) d)).
  { apply NoDup_length_incl; [apply NoDup_ListNoDup, Hnd | | exact Hincl].
    rewrite !length_map. lia. }
  assert (Hk : In (idx v') (map (fun it => idx (fst it)) d')).
  { apply in_map_iff. exists (v', c'). auto. }
  apply Hincl' in Hk. destruct (key_in_items d _ Hk) as (v & c & Hin & Hidx).
  exists v, c. split; [exact Hin |]. split; [exact Hidx |].
  destruct (Hm v c Hin) as (w & cw & Hw & Hidxw & Hle).
  assert (cw = c').
  { apply (nodup_same_key d' w cw v' c' Hnd' Hw Hin'). congruence. }
  subst cw. rewrite Qabs_Qminus. exact Hle.
Qed.

Lemma equals_value_sym o d o' d' :
  keys_nodup d -> keys_nodup d' ->
  equals_value o d o' d' = equals_value o' d' o d.
Proof.
  intros Hnd Hnd'. unfold equals_value.
  rewrite (String.eqb_sym (__sense o') (__sense o)).
  destruct (negb (__sense o =? __sense o')%string); [reflexivity |].
  rewrite (Nat.eqb_sym (length d') (length d)).
  destruct (length d =? length d')%nat eqn:Hlen; [| reflexivity].
  apply Nat.eqb_eq in Hlen. cbn [negb].
  rewrite (Qle_bool_ext tol (Qabs (__const o' - __const o))
             tol (Qabs (__const o - __const o')))
    by (try reflexivity; rewrite Qabs_Qminus; reflexivity).
  destruct (Qle_bool tol (Qabs (__const o - __const o'))); [reflexivity |].
  destruct (LinExpr.equals_loop (LinExpr.other_contents d) d') eqn:H2.
  - apply (equals_loop_matched d d' Hnd').
    apply (equals_loop_matched d' d Hnd) in H2.
    apply matched_sym; auto.
  - destruct (LinExpr.equals_loop (LinExpr.other_contents d') d) eqn:H1;
      [| reflexivity].
    apply (equals_loop_matched d d' Hnd') in H1.
    assert (H2' : LinExpr.equals_loop (LinExpr.other_contents d) d' = true).
    { apply (equals_loop_matched d' d Hnd). apply matched_sym; auto. }
    congruence.
Qed.

(** ** [__add__] and [__sub__] as specifications *)

Lemma add_returns E s self o d other t :
  is_linexpr s self o d -> denotes s other t ->
  returns (LinExpr.__add__ self other) E s
    (fun r s' =>
       allocated s s' r (fst (added (EPS E) (__const o) d t))
         (snd (added (EPS E) (__const o) d t)) (__sense o) /\
       is_linexpr s' self o d /\ denotes s' other t).
Proof.
  intros Hl Ht.
  eapply returns_eq; [apply (add_run E s self o d other t Hl Ht) |].
  split; [apply allocated_grow3 |].
  split; [eapply is_linexpr_extends | eapply denotes_extends];
    try eassumption; apply extends_grow.
Qed.

Lemma sub_returns E s self o d other t :
  is_linexpr s self o d -> denotes s other t ->
  returns (LinExpr.__sub__ self other) E s
    (fun r s' =>
       allocated s s' r (fst (subtracted (EPS E) (__const o) d t))
         (snd (subtracted (EPS E) (__const o) d t)) (__sense o) /\
       is_linexpr s' self o d /\ denotes s' other t).
Proof.
  intros Hl Ht.
  eapply returns_eq; [apply (sub_run E s self o d other t Hl Ht) |].
  split; [apply allocated_grow3 |].
  split; [eapply is_linexpr_extends | eapply denotes_extends];
    try eassumption; apply extends_grow.
Qed.

Lemma relational_run E s self o d other t sn
    (op : loc -> pyval -> M loc) :
  (forall a b, op a b =
     (result <- LinExpr.__sub__ a b ;; LinExpr.set_sense result sn ;;; ret result)) ->
  is_linexpr s self o d -> denotes s other t ->
  op self other E s =
  (Ok (S (length (heap s))),
   grow s [ODict [];
           OLinExpr (mkLinExpr (fst (subtracted (EPS E) (__const o) d t))
                               (S (S (length (heap s)))) sn);
           ODict (snd (subtracted (EPS E) (__const o) d t))]).
Proof.
  intros Hop Hl Ht. rewrite Hop.
  rewrite (bind_ok _ _ _ _ _ _ (sub_run E s self o d other t Hl Ht)).
  set (s1 := grow s _).
  rewrite (bind_ok _ _ _ _ _ _
    (set_sense_run E s1 _ _ sn (lookup_grow_1 _ _ _ _))).
  cbn [__const __expr __sense]. unfold s1. rewrite upd_grow_1. reflexivity.
Qed.

Lemma relational_returns E s self o d other t sn
    (op : loc -> pyval -> M loc) :
  (forall a b, op a b =
     (result <- LinExpr.__sub__ a b ;; LinExpr.set_sense result sn ;;; ret result)) ->
  is_linexpr s self o d -> denotes s other t ->
  returns (op self other) E s
    (fun r s' =>
       allocated s s' r (fst (subtracted (EPS E) (__const o) d t))
         (snd (subtracted (EPS E) (__const o) d t)) sn /\
       is_linexpr s' self o d).
Proof.
  intros Hop Hl Ht.
  eapply returns_eq; [apply (relational_run E s self o d other t sn op Hop Hl Ht) |].
  split; [apply allocated_grow3 |].
  eapply is_linexpr_extends; [exact Hl | apply extends_grow].
Qed.

(** ** Expressions built from variables *)

Lemma not_pruned_one : Qle_bool (Qabs 1) tol = false.
Proof. reflexivity. Qed.

Lemma not_pruned_minus_one : Qle_bool (Qabs (-1)) tol = false.
Proof. reflexivity. Qed.

Lemma init_items_difference eps x y :
  0 <= eps ->
  init_items eps [x; y] [1; -1] =
  if (idx x =? idx y)%Z then [] else [(x, 1); (y, -1)].
Proof.
  intros He. unfold init_items, init_step.
  cbn [combine fold_left fst snd].
  rewrite not_pruned_one, not_pruned_minus_one.
  unfold add_var_items. cbn [dict_get dict_set]. unfold Var_key_eqb.
  destruct (idx x =? idx y)%Z eqn:Hxy.
  - rewrite in_band_zero by (try assumption; reflexivity).
    cbn [dict_del]. now rewrite Hxy.
  - cbn [dict_set]. try rewrite Hxy. reflexivity.
Qed.

Lemma init_items_one eps x : init_items eps [x] [1] = [(x, 1)].
Proof. reflexivity. Qed.

Lemma var_relation_var_run E s x y sn :
  0 <= EPS E ->
  LinExpr.__init__ [x; y] [1; -1] 0 sn E s =
  (Ok (S (length (heap s))),
   grow s [ODict (if (idx x =? idx y)%Z then [] else [(x, 1); (y, -1)]);
           OLinExpr (mkLinExpr 0 (length (heap s)) sn)]).
Proof.
  intros He. rewrite (init_run E s [x; y] [1; -1] 0 sn (or_intror eq_refl)).
  now rewrite init_items_difference.
Qed.

Lemma var_relation_real_run E s x q sn :
  exists c,
    c == - q /\
    (if negb (Qeq_bool q 0) then LinExpr.__init__ [x] [1] (-1 * q) sn
     else LinExpr.__init__ [x] [1] 0 sn) E s =
    (Ok (S (length (heap s))),
     grow s [ODict [(x, 1)]; OLinExpr (mkLinExpr c (length (heap s)) sn)]).
Proof.
  destruct (Qeq_bool q 0) eqn:Hq; cbn [negb].
  - exists 0. split.
    + apply Qeq_bool_iff in Hq. lra.
    + now rewrite (init_run E s [x] [1] 0 sn (or_intror eq_refl)).
  - exists (-1 * q). split; [lra |].
    now rewrite (init_run E s [x] [1] (-1 * q) sn (or_intror eq_refl)).
Qed.

(** ** Terms cancelling through the operators *)

Lemma add_var_cancel_items eps d v c c' :
  0 <= eps -> dict_get Var_key_eqb d v = None -> c + c' == 0 ->
  add_var_items eps (add_var_items eps d v c) v c' = d.
Proof.
  intros Heps Hg Hc. unfold add_var_items at 2. rewrite Hg.
  unfold add_var_items.
  rewrite (dict_get_set_same Var_key_eqb Var_key_eqb_refl).
  rewrite in_band_zero by assumption.
  apply (dict_del_set_absent Var_key_eqb Var_key_eqb_refl). exact Hg.
Qed.

Lemma init_items_single_lookup_other eps x1 x2 c1 :
  idx x1 <> idx x2 ->
  dict_get Var_key_eqb (init_items eps [x1] [c1]) x2 = None.
Proof.
  intros Hne. rewrite init_items_single.
  destruct (Qle_bool (Qabs c1) tol); [reflexivity |].
  cbn. unfold Var_key_eqb. apply Z.eqb_neq in Hne. now rewrite Hne.
Qed.

Lemma cancel_items eps x1 x2 c1 c2 :
  0 <= eps -> idx x1 <> idx x2 ->
  add_expr_items eps
    (add_expr_items eps (init_items eps [x1] [c1]) (init_items eps [x2] [c2]) (-1))
    (init_items eps [x2] [c2]) 1
  = init_items eps [x1] [c1].
Proof.
  intros He Hne. rewrite (init_items_single eps x2 c2).
  destruct (Qle_bool (Qabs c2) tol); [reflexivity |].
  unfold add_expr_items. cbn [fold_left fst snd].
  apply add_var_cancel_items;
    [exact He | now apply init_items_single_lookup_other | lra].
Qed.

Lemma minuend_lookup eps x1 x2 c1 c2 :
  idx x1 <> idx x2 ->
  dict_get Var_key_eqb
    (add_expr_items eps (init_items eps [x1] [c1]) (init_items eps [x2] [c2]) (-1))
    x2 =
  if Qle_bool (Qabs c2) tol then None else Some (c2 * -1).
Proof.
  intros Hne. rewrite (init_items_single eps x2 c2).
  destruct (Qle_bool (Qabs c2) tol).
  - cbn [add_expr_items fold_left]. now apply init_items_single_lookup_other.
  - unfold add_expr_items. cbn [fold_left fst snd]. unfold add_var_items.
    rewrite (init_items_single_lookup_other eps x1 x2 c1 Hne).
    apply (dict_get_set_same Var_key_eqb Var_key_eqb_refl).
Qed.

Lemma mul_var_returns E s a c :
  returns (Var.__mul__ a (PyReal c)) E s
    (fun l s' => allocated s s' l 0 (init_items (EPS E) [a] [c]) "").
Proof. apply rmul_returns. Qed.

Lemma denotes_expr s e o d :
  is_linexpr s e o d -> denotes s (PyLinExpr e) (Op_expr (__const o) d).
Proof. intros H. exists o. split; [exact H | reflexivity]. Qed.

(** ** [Column.__str__] *)

Lemma string_app_assoc (a b c : string) :
  ((a ++ b) ++ c = a ++ (b ++ c))%string.
Proof.
  induction a as [|x a IH]; [reflexivity |].
  change (String x ((a ++ b) ++ c) = String x (a ++ (b ++ c)))%string.
  now rewrite IH.
Qed.

Lemma string_app_nil_r (a : string) : (a ++ "" = a)%string.
Proof.
  induction a as [|x a IH]; [reflexivity |].
  change (String x (a ++ "") = String x a)%string.
  now rewrite IH.
Qed.

Lemma column_str_loop fmt name cs co :
  forall cs2 cs1 co1 co2 res,
    cs = cs1 ++ cs2 -> co = co1 ++ co2 ->
    length cs1 = length co1 -> (length cs2 <= length co2)%nat ->
    Column.str_loop fmt name cs (Some co)
      (seq (length cs1) (length cs2)) res =
    Ok (res ++ String.concat ", "
                 (zip_with (column_item fmt name) cs2 co2))%string.
Proof.
  induction cs2 as [|cn cs2 IH]; intros cs1 co1 co2 res Hcs Hco Hl1 Hl2.
  - cbn. now rewrite string_app_nil_r.
  - destruct co2 as [|c co2]; [cbn in Hl2; lia |].
    cbn [length seq Column.str_loop].
    assert (Hc : co !! length cs1 = Some c).
    { rewrite Hco, Hl1. apply list_lookup_middle. reflexivity. }
    assert (Hn : cs !! length cs1 = Some cn).
    { rewrite Hcs. apply list_lookup_middle. reflexivity. }
    rewrite Hc, Hn.
    replace (S (length cs1)) with (length (cs1 ++ [cn]))
      by (rewrite length_app; cbn; lia).
    rewrite (IH (cs1 ++ [cn]) (co1 ++ [c]) co2).
    + f_equal. cbn [zip_with]. fold (column_item fmt name cn c).
      assert (Hlen : length cs = (length cs1 + S (length cs2))%nat).
      { rewrite Hcs, length_app. reflexivity. }
      destruct cs2 as [|cn2 cs2].
      * replace (length cs1 <? length cs - 1)%nat with false.
        2:{ symmetry. apply Nat.ltb_ge. rewrite Hlen. cbn. lia. }
        cbn. now rewrite string_app_nil_r.
      * replace (length cs1 <? length cs - 1)%nat with true.
        2:{ symmetry. apply Nat.ltb_lt. rewrite Hlen. cbn. lia. }
        destruct co2 as [|c2 co2]; [cbn in Hl2; lia |].
        cbn [zip_with String.concat].
        now rewrite !string_app_assoc.
    + rewrite Hcs, <- app_assoc. reflexivity.
    + rewrite Hco, <- app_assoc. reflexivity.
    + rewrite !length_app. cbn. lia.
    + cbn in Hl2. lia.
Qed.

Lemma column_str_loop_short fmt name cs co :
  forall cs2 cs1 co1 co2 res,
    cs = cs1 ++ cs2 -> co = co1 ++ co2 ->
    length cs1 = length co1 -> (length co2 < length cs2)%nat ->
    Column.str_loop fmt name cs (Some co)
      (seq (length cs1) (length cs2)) res = Raise IndexError.
Proof.
  induction cs2 as [|cn cs2 IH]; intros cs1 co1 co2 res Hcs Hco Hl1 Hl2.
  - cbn in Hl2. lia.
  - cbn [length seq Column.str_loop].
    destruct co2 as [|c co2].
    + assert (Hc : co !! length cs1 = None).
      { rewrite Hco, app_nil_r. apply lookup_ge_None. lia. }
      now rewrite Hc.
    + assert (Hc : co !! length cs1 = Some c).
      { rewrite Hco, Hl1. apply list_lookup_middle. reflexivity. }
      assert (Hn : cs !! length cs1 = Some cn).
      { rewrite Hcs. apply list_lookup_middle. reflexivity. }
      rewrite Hc, Hn.
      replace (S (length cs1)) with (length (cs1 ++ [cn]))
        by (rewrite length_app; cbn; lia).
      apply (IH (cs1 ++ [cn]) (co1 ++ [c]) co2).
      * rewrite Hcs, <- app_assoc. reflexivity.
      * rewrite Hco, <- app_assoc. reflexivity.
      * rewrite !length_app. cbn. lia.
      * cbn in Hl2. lia.
Qed.

(** ** [__imul__] *)

Lemma imul_run E s self o d q :
  is_linexpr s self o d -> keys_nodup d ->
  LinExpr.__imul__ self (PyReal q) E s =
  (Ok self,
   upd (upd s self (OLinExpr (mkLinExpr (__const o * q) (__expr o) (__sense o))))
       (__expr o) (ODict (scale_items q d))).
Proof.
  intros Hl Hnd. pose proof (is_linexpr_ne _ _ _ _ Hl) as Hne.
  destruct Hl as [Ho Hd]. unfold LinExpr.__imul__.
  rewrite (bind_ok _ _ _ _ _ _ (get_obj_run E s self o Ho)).
  rewrite (bind_ok _ _ _ _ _ _ (set_obj_run E s self o _ Ho)).
  set (s1 := upd s self _).
  assert (Hd1 : heap s1 !! __expr o = Some (ODict d)).
  { unfold s1. rewrite lookup_upd_ne by congruence. exact Hd. }
  rewrite (bind_ok _ _ _ _ _ _ (read_dict_run E s1 _ d Hd1)).
  rewrite (bind_ok _ _ _ _ _ _ (scale_keys_run E _ q d [] s1 Hnd Hd1)).
  reflexivity.
Qed.

(** ** Handles as keys *)

Lemma distinguishable_refl v : distinguishable v v.
Proof. intros _. reflexivity. Qed.

Lemma distinguishable_xy : distinguishable var_x var_y.
Proof. intros H. vm_compute in H. discriminate H. Qed.

Lemma distinguishable_yx : distinguishable var_y var_x.
Proof. intros H. vm_compute in H. discriminate H. Qed.


Lemma known_to_items_xy v : v = var_x \/ v = var_y -> known_to items_xy v.
Proof.
  intros Hv k c [H | [H | []]]; injection H as <- _; destruct Hv as [-> | ->];
    auto using distinguishable_refl, distinguishable_xy, distinguishable_yx.
Qed.

(** A handle with the index of a stored key is that key. *)
Lemma known_to_same_index (d : coeffs_dict) v k c :
  known_to d v -> In (k, c) d -> idx k = idx v -> k = v.
Proof.
  intros Hk Hin Hi. apply (Hk k c Hin).
  unfold Var.__hash__. now rewrite Hi.
Qed.

Lemma Var_is_eq a b : Var_is a b = true <-> a = b.
Proof.
  unfold Var_is. destruct a as [ma ia], b as [mb ib]. cbn.
  rewrite andb_true_iff, Nat.eqb_eq, Z.eqb_eq. split.
  - intros [-> ->]. reflexivity.
  - intros H. injection H as -> ->. auto.
Qed.

(** Between distinguishable handles the lookup by [idx] is the lookup of
    the code, and [Var.__eq__] is not called. *)
Lemma probe_of_known (d : coeffs_dict) v :
  known_to d v ->
  dict_probe d v =
  match dict_get Var_key_eqb d v with Some c => Found c | None => Absent end.
Proof.
  induction d as [|[k c] d IH]; intros Hk; cbn [dict_probe dict_get];
    [reflexivity |].
  destruct (py_hash (Var.__hash__ k) =? py_hash (Var.__hash__ v))%Z eqn:Hh.
  - apply Z.eqb_eq in Hh.
    assert (Hkv : k = v) by (apply (Hk k c); [left; reflexivity | exact Hh]).
    subst k. rewrite (proj2 (Var_is_eq v v) eq_refl).
    unfold Var_key_eqb. now rewrite Z.eqb_refl.
  - assert (Hi : Var_key_eqb k v = false).
    { unfold Var_key_eqb. apply Z.eqb_neq. intros Hi.
      apply Z.eqb_neq in Hh. apply Hh. unfold Var.__hash__. now rewrite Hi. }
    rewrite Hi. apply IH. intros k' c' Hin. apply (Hk k' c'). now right.
Qed.

(** Variables of one model whose indices are positions from [0] are
    distinguishable. *)
Lemma distinguishable_in_a_model k v :
  __model k = __model v ->
  (0 <= idx k < 2 ^ 63)%Z -> (0 <= idx v < 2 ^ 63)%Z ->
  distinguishable k v.
Proof.
  intros Hm Hk Hv Hh. unfold Var.__hash__, py_hash in Hh.
  replace ((- 2 ^ 63 <=? idx k) && (idx k <? 2 ^ 63))%Z with true in Hh
    by (symmetry; apply andb_true_iff; split;
        [apply Z.leb_le | apply Z.ltb_lt]; lia).
  replace ((- 2 ^ 63 <=? idx v) && (idx v <? 2 ^ 63))%Z with true in Hh
    by (symmetry; apply andb_true_iff; split;
        [apply Z.leb_le | apply Z.ltb_lt]; lia).
  cbv zeta in Hh.
  replace (idx k =? -1)%Z with false in Hh by (symmetry; apply Z.eqb_neq; lia).
  replace (idx v =? -1)%Z with false in Hh by (symmetry; apply Z.eqb_neq; lia).
  destruct k, v. cbn in *. congruence.
Qed.

(** Handles of two models with one index, and the indices [-1] and [-2],
    are not: the code compares them with [Var.__eq__]. *)
Lemma foreign_handle_is_compared :
  dict_probe [(mkVar 0 0, 1)] (mkVar 1 0) = Compared (mkVar 0 0) /\
  dict_probe [(mkVar 0 (-2), 1)] (mkVar 0 (-1)) = Compared (mkVar 0 (-2)).
Proof. split; reflexivity. Qed.

(** ** What the constructor stores *)




(** ** [add_var] twice *)

Lemma dict_set_absent (d : coeffs_dict) v c :
  dict_get Var_key_eqb d v = None ->
  dict_set Var_key_eqb d v c = d ++ [(v, c)].
Proof.
  induction d as [|[k q] d IH]; intros Hg; cbn in *; [reflexivity |].
  destruct (Var_key_eqb k v); [discriminate |]. now rewrite IH.
Qed.

Lemma add_var_then_cancel E s e o d v c :
  0 <= EPS E -> is_linexpr s e o d ->
  dict_get Var_key_eqb d v = None ->
  returns (LinExpr.add_var e v c) E s
    (fun _ s1 =>
       is_linexpr s1 e o (d ++ [(v, c)]) /\
       returns (LinExpr.add_var e v (- c)) E s1
         (fun _ s2 => is_linexpr s2 e o d)).
Proof.
  intros Heps Hl Hg.
  eapply returns_eq; [apply (add_var_run E s e o d v c Hl) |].
  pose proof (is_linexpr_upd_dict s e o d (add_var_items (EPS E) d v c) Hl)
    as Hl1.
  split.
  - replace (d ++ [(v, c)]) with (add_var_items (EPS E) d v c); [exact Hl1 |].
    unfold add_var_items. rewrite Hg. now apply dict_set_absent.
  - eapply returns_eq; [apply (add_var_run E _ e o _ v (- c) Hl1) |].
    rewrite upd_upd, (add_var_twice_items _ _ _ _ Heps Hg).
    rewrite upd_same by apply Hl. exact Hl.
Qed.

(** ** Two constraints in one heap *)

Lemma state_two_first : is_linexpr state_two 1%nat obj_le items_xy.
Proof. split; reflexivity. Qed.

Lemma state_two_second : is_linexpr state_two 3%nat obj_yx items_yx.
Proof. split; reflexivity. Qed.

Lemma items_yx_nodup : keys_nodup items_yx.
Proof.
  unfold keys_nodup, items_yx. cbn.
  apply NoDup_cons. split; [| apply NoDup_singleton].
  intros H. apply list_elem_of_In in H. destruct H as [H | []]. discriminate H.
Qed.

(* ================================================================== *)
(** * The claims *)
(* ================================================================== *)

(** C1.  For a sense-tagged expression all of whose variables have a known
    value, [violation] returns [|lhs - rhs|] for sense [=],
    [max(lhs - rhs, 0)] for [<] and [max(rhs - lhs, 0)] for [>], with
    [rhs = -const] and [lhs] the sum of coefficient times value.  In
    particular [x + y <= 10] at [x = 7, y = 5] is violated by [2],
    [x + y == 10] at [x = 7, y = 2] by [1], and [x + y >= 10] at
    [x = 3, y = 3] by [4]. *)
Theorem violation_formula :
  (forall E s l o d,
     is_linexpr s l o d -> all_known E d ->
     (__sense o = "=" \/ __sense o = "<" \/ __sense o = ">")%string ->
     returns (LinExpr.violation l) E s
       (fun r _ => r == spec_violation E o d))
  /\
  (forall E s x y,
     idx x <> idx y -> value_of E x = Some 7 -> value_of E y = Some 5 ->
     returns (violation_of_le x y 10) E s (fun r _ => r == 2))
  /\
  (forall E s x y,
     idx x <> idx y -> value_of E x = Some 7 -> value_of E y = Some 2 ->
     returns (violation_of_eq x y 10) E s (fun r _ => r == 1))
  /\
  (forall E s x y,
     idx x <> idx y -> value_of E x = Some 3 -> value_of E y = Some 3 ->
     returns (violation_of_ge x y 10) E s (fun r _ => r == 4)).
Proof.
  split; [| split; [| split]].
  - intros E s l o d Hl Hk Hs.
    eapply returns_mono; [apply (violation_returns _ _ _ _ _ Hl Hk Hs) |].
    intros r s' [Hr _]. exact Hr.
  - intros E s x y Hne Hx Hy.
    eapply returns_mono.
    { apply (violation_of_relation E s x y 10 "<" 7 5 LinExpr.__le__);
        auto. }
    intros r s' Hr. cbn beta in Hr. rewrite Hr.
    unfold spec_violation, spec_lhs. cbn [fold_right fst snd __sense __const].
    rewrite Hx, Hy. reflexivity.
  - intros E s x y Hne Hx Hy.
    eapply returns_mono.
    { apply (violation_of_relation E s x y 10 "=" 7 2 LinExpr.__eq__);
        auto. }
    intros r s' Hr. cbn beta in Hr. rewrite Hr.
    unfold spec_violation, spec_lhs. cbn [fold_right fst snd __sense __const].
    rewrite Hx, Hy. reflexivity.
  - intros E s x y Hne Hx Hy.
    eapply returns_mono.
    { apply (violation_of_relation E s x y 10 ">" 3 3 LinExpr.__ge__);
        auto. }
    intros r s' Hr. cbn beta in Hr. rewrite Hr.
    unfold spec_violation, spec_lhs. cbn [fold_right fst snd __sense __const].
    rewrite Hx, Hy. reflexivity.
Qed.

Lemma violation_formula_witness :
  is_linexpr state_le 1%nat obj_le items_xy /\
  all_known (env_xy (Some 7) (Some 5)) items_xy /\
  returns (LinExpr.violation 1%nat) (env_xy (Some 7) (Some 5)) state_le
    (fun r _ => r == spec_violation (env_xy (Some 7) (Some 5)) obj_le items_xy) /\
  returns (violation_of_le var_x var_y 10) (env_xy (Some 7) (Some 5))
    empty_state (fun r _ => r == 2).
Proof.
  split; [apply state_le_is_linexpr |]. split; [apply items_xy_known |].
  split.
  - apply (proj1 violation_formula).
    + apply state_le_is_linexpr.
    + apply items_xy_known.
    + right. left. reflexivity.
  - apply (proj1 (proj2 violation_formula)).
    + discriminate.
    + reflexivity.
    + reflexivity.
Defined.

(** C2.  When some variable of an expression has no value, [x] returns
    [None], and so [(x + y).x] is [None] when [y.x] is, whatever [x.x];
    [violation] does not return [None]: the product [coef * None] raises
    [TypeError]. *)
Theorem unknown_value_in_x_and_violation :
  (forall E s l o d,
     is_linexpr s l o d ->
     (exists v c, In (v, c) d /\ value_of E v = None) ->
     returns (LinExpr.x l) E s (fun r _ => r = None) /\
     exists s', LinExpr.violation l E s = (Raise TypeError, s'))
  /\
  (forall E s x y,
     idx x <> idx y -> value_of E y = None ->
     returns (x_of_sum x y) E s (fun r _ => r = None)).
Proof.
  split.
  - intros E s l o d Hl (v & c & Hin & Hv).
    assert (Hk : ~ all_known E d).
    { intros Hk. exact (Hk v c Hin Hv). }
    split.
    + eapply returns_mono; [apply (x_returns _ _ _ _ _ Hl) |].
      intros r s' [-> _]. apply x_value_unknown, Hk.
    + destruct (violation_raises E s l o d Hl Hk) as (s' & Hrun & _).
      exists s'. exact Hrun.
  - intros E s x y Hne Hy. unfold x_of_sum.
    eapply returns_step; [apply var_add_var_run, Hne |].
    eapply returns_mono; [apply x_returns, is_linexpr_grow_new |].
    intros r s' [-> _]. cbn [x_value]. rewrite Hy.
    destruct (value_of E x); reflexivity.
Qed.

Lemma unknown_value_witness :
  is_linexpr state_le 1%nat obj_le items_xy /\
  (exists v c, In (v, c) items_xy /\
               value_of (env_xy (Some 7) None) v = None) /\
  returns (LinExpr.x 1%nat) (env_xy (Some 7) None) state_le
    (fun r _ => r = None) /\
  (exists s', LinExpr.violation 1%nat (env_xy (Some 7) None) state_le =
              (Raise TypeError, s')) /\
  returns (x_of_sum var_x var_y) (env_xy (Some 7) None) empty_state
    (fun r _ => r = None).
Proof.
  assert (Hk : exists v c, In (v, c) items_xy /\
                           value_of (env_xy (Some 7) None) v = None).
  { exists var_y, 1. split; [right; left; reflexivity | reflexivity]. }
  split; [apply state_le_is_linexpr |]. split; [exact Hk |].
  destruct (proj1 unknown_value_in_x_and_violation _ _ _ _ _
              state_le_is_linexpr Hk) as [H1 H2].
  split; [exact H1 |]. split; [exact H2 |].
  apply (proj2 unknown_value_in_x_and_violation).
  - discriminate.
  - reflexivity.
Defined.

(** C3.  [ConflictGraph.conflicting] raises [TypeError] on every pair of
    arguments, variables and expressions included, and leaves the state,
    the trace of solver calls with it, as it was: [isinstance] is given a
    list of classes. *)
Theorem conflicting_always_raises E s e1 e2 :
  ConflictGraph.conflicting e1 e2 E s = (Raise TypeError, s).
Proof.
  unfold ConflictGraph.conflicting.
  apply bind_raise. unfold lift.
  now rewrite isinstance_list_raises.
Qed.

(** C4.  [LinExpr.model] returns [None] for an expression without
    variables; for any other expression it raises [TypeError], because the
    [dict_keys] view [self.expr.keys()] is subscripted. *)
Theorem model_of_expression E s l o d :
  is_linexpr s l o d ->
  (d = [] -> LinExpr.model l E s = (Ok None, s)) /\
  (d <> [] -> LinExpr.model l E s = (Raise TypeError, s)).
Proof.
  intros [Ho Hd]. unfold LinExpr.model.
  rewrite (bind_ok _ _ _ _ _ _ (expr_run E s l o Ho)).
  rewrite (bind_ok _ _ _ _ _ _ (read_dict_run E s _ d Hd)).
  split.
  - intros ->. reflexivity.
  - intros Hne. destruct d as [|it d]; [congruence |].
    rewrite (bind_ok _ _ _ _ _ _ (expr_run E s l o Ho)). reflexivity.
Qed.

Lemma model_of_expression_witness :
  is_linexpr state_le 1%nat obj_le items_xy /\
  items_xy <> [] /\
  LinExpr.model 1%nat (env_xy None None) state_le = (Raise TypeError, state_le).
Proof.
  split; [apply state_le_is_linexpr |]. split; [discriminate |].
  apply (proj2 (model_of_expression (env_xy None None) _ _ _ _ state_le_is_linexpr)).
  discriminate.
Defined.




(** C6.  With [mip.EPS] not negative, [add_var(v, c)] on a fresh
    expression stores [c] for [v], and a following [add_var(v, -c)]
    deletes the entry: the mapping is empty again.  The same holds on any
    expression that had no entry for [v] (and where [v] can be looked
    up): [add_var(v, c)] appends the item [(v, c)], and [add_var(v, -c)]
    leaves the items that were there before, and nothing else. *)
Theorem add_var_cancellation E s v c :
  0 <= EPS E ->
  returns (LinExpr.__init__ [] [] 0 "") E s
    (fun e s0 =>
       exists r,
         is_linexpr s0 e (mkLinExpr 0 r "") [] /\
         returns (LinExpr.add_var e v c) E s0
           (fun _ s1 =>
              is_linexpr s1 e (mkLinExpr 0 r "") [(v, c)] /\
              returns (LinExpr.add_var e v (- c)) E s1
                (fun _ s2 => is_linexpr s2 e (mkLinExpr 0 r "") [])))
  /\
  (forall e o d,
     is_linexpr s e o d -> known_to d v ->
     dict_contains Var_key_eqb d v = false ->
     returns (LinExpr.add_var e v c) E s
       (fun _ s1 =>
          is_linexpr s1 e o (d ++ [(v, c)]) /\
          returns (LinExpr.add_var e v (- c)) E s1
            (fun _ s2 => is_linexpr s2 e o d))).
Proof.
  intros Heps. split.
  - eapply returns_eq; [apply init_run; left; reflexivity |].
    change (init_items (EPS E) [] []) with (@nil (Var * Q)).
    pose proof (is_linexpr_grow_new s 0 "" [] []) as Hl.
    eexists. split; [exact Hl |].
    apply (add_var_then_cancel E _ _ _ [] v c Heps Hl eq_refl).
  - intros e o d Hl _ Hc. apply dict_contains_false_get in Hc.
    now apply add_var_then_cancel.
Qed.

Lemma add_var_cancellation_witness :
  0 <= EPS (env_xy None None) /\
  returns (LinExpr.__init__ [] [] 0 "") (env_xy None None) empty_state
    (fun e s0 =>
       exists r,
         is_linexpr s0 e (mkLinExpr 0 r "") [] /\
         returns (LinExpr.add_var e var_x 3) (env_xy None None) s0
           (fun _ s1 =>
              is_linexpr s1 e (mkLinExpr 0 r "") [(var_x, 3)] /\
              returns (LinExpr.add_var e var_x (- 3)) (env_xy None None) s1
                (fun _ s2 => is_linexpr s2 e (mkLinExpr 0 r "") []))).
Proof.
  assert (H : 0 <= EPS (env_xy None None)) by discriminate.
  split; [exact H |].
  apply (proj1 (add_var_cancellation (env_xy None None) empty_state var_x 3 H)).
Defined.

(** C7, counterexample.  The constructor does not raise on every pair of
    lists of different lengths: [LinExpr([], [1])] returns. *)
Lemma init_skips_length_check_without_variables :
  ~ (forall E s (variables : list Var) (coeffs : list Q) const sense,
       length variables <> length coeffs ->
       exists s', LinExpr.__init__ variables coeffs const sense E s =
                  (Raise ValueError, s')).
Proof.
  intros H.
  destruct (H (env_xy None None) empty_state [] [1] 0 ""%string) as [s' Hs].
  - discriminate.
  - discriminate Hs.
Qed.

(** C7, as amended.  When the lists differ in length, the constructor
    raises [ValueError] if the list of variables is not empty; if it is
    empty the coefficients are not looked at and an expression without
    terms is returned. *)
Theorem init_length_check E s variables coeffs const sense :
  length variables <> length coeffs ->
  (variables <> [] ->
   exists s', LinExpr.__init__ variables coeffs const sense E s =
              (Raise ValueError, s')) /\
  (variables = [] ->
   returns (LinExpr.__init__ variables coeffs const sense) E s
     (fun l s' => allocated s s' l const [] sense)).
Proof.
  intros Hne. split.
  - intros Hv. destruct variables as [|v vs]; [congruence |].
    eexists. apply init_mismatch_run, Hne.
  - intros ->. apply (init_returns E s [] coeffs const sense). left. reflexivity.
Qed.

Lemma init_length_check_witness :
  length [var_x] <> length [1; 1] /\
  [var_x] <> [] /\
  exists s', LinExpr.__init__ [var_x] [1; 1] 0 "" (env_xy None None)
               empty_state = (Raise ValueError, s').
Proof.
  assert (H : length [var_x] <> length [1; 1]) by discriminate.
  split; [exact H |]. split; [discriminate |].
  apply (proj1 (init_length_check (env_xy None None) empty_state _ _ 0 "" H)).
  discriminate.
Defined.



(** C9.  For an expression [e], [e.copy().equals(e)] returns [True], and
    whatever is then done to the copy (through [add_var], [add_const], the
    sense setter, or by writing to or deleting from the copy's mapping)
    leaves the constant, the sense and the items of [e] as they were. *)
Theorem copy_equals_and_is_independent E s e o d :
  is_linexpr s e o d -> keys_nodup d ->
  returns (cp <- LinExpr.copy e ;; LinExpr.equals cp e) E s
    (fun r _ => r = true)
  /\
  forall ms : list mutation,
    is_linexpr
      (snd ((cp <- LinExpr.copy e ;; for_ ms (mutate cp)) E s)) e o d.
Proof.
  intros Hl Hnd. split.
  - apply returns_bind. eapply returns_mono; [apply copy_returns, Hl |].
    intros cp s1 (X & _ & _ & r & _ & Hc). cbn beta.
    pose proof (is_linexpr_extends _ _ _ _ _ Hl X) as Hl1.
    eapply returns_eq; [apply (equals_run _ _ _ _ _ _ _ _ Hc Hl1) |].
    apply equals_value_same_items; [exact Hnd | reflexivity | reflexivity].
  - intros ms. rewrite (bind_ok _ _ _ _ _ _ (copy_run E s e o d Hl)).
    destruct (is_linexpr_lt _ _ _ _ Hl) as [Hlt1 Hlt2].
    apply (mutations_frame E (length (heap s))); [exact Hlt1 | exact Hlt2 | |].
    + eexists _, _. split; [apply is_linexpr_copy_new |]. cbn [__expr]. lia.
    + eapply is_linexpr_extends; [exact Hl | apply extends_grow].
Qed.

Lemma copy_witness :
  is_linexpr state_le 1%nat obj_le items_xy /\
  keys_nodup items_xy /\
  returns (cp <- LinExpr.copy 1%nat ;; LinExpr.equals cp 1%nat)
    (env_xy None None) state_le (fun r _ => r = true) /\
  is_linexpr
    (snd ((cp <- LinExpr.copy 1%nat ;;
           for_ [Mut_add_var var_x 4; Mut_delitem var_y] (mutate cp))
            (env_xy None None) state_le))
    1%nat obj_le items_xy.
Proof.
  split; [apply state_le_is_linexpr |]. split; [apply items_xy_nodup |].
  destruct (copy_equals_and_is_independent (env_xy None None) _ _ _ _
              state_le_is_linexpr items_xy_nodup) as [H1 H2].
  split; [exact H1 | apply H2].
Defined.



(* ================================================================== *)
(** * Further properties of the methods *)
(* ================================================================== *)

(** X1.  [add_var(v, c)] on a mapping with pairwise different keys, in
    which a key with the hash of [v] is [v] itself: a lookup of [v]
    afterwards finds [c] if [v] was absent, the sum if [v] was present
    and the sum lies outside [[-EPS, EPS]], and nothing if the sum lies
    inside; the entries of all other variables, the constant and the
    sense are untouched, and the keys stay pairwise different. *)
Theorem add_var_lookup_and_frame E s l o d v c :
  is_linexpr s l o d -> keys_nodup d -> known_to d v ->
  returns (LinExpr.add_var l v c) E s
    (fun _ s' =>
       exists d',
         is_linexpr s' l o d' /\ keys_nodup d' /\
         dict_get Var_key_eqb d' v =
           after_add_var (EPS E) (dict_get Var_key_eqb d v) c /\
         forall w, idx w <> idx v ->
                   dict_get Var_key_eqb d' w = dict_get Var_key_eqb d w).
Proof.
  intros Hl Hnd _.
  eapply returns_eq; [apply (add_var_run E s l o d v c Hl) |].
  exists (add_var_items (EPS E) d v c).
  split; [eapply is_linexpr_upd_dict, Hl |].
  split; [now apply keys_nodup_add_var_items |].
  split; [now apply add_var_items_lookup |].
  intros w Hw. now apply add_var_items_other.
Qed.

Lemma add_var_lookup_witness :
  is_linexpr state_le 1%nat obj_le items_xy /\ keys_nodup items_xy /\
  known_to items_xy var_x /\
  returns (LinExpr.add_var 1%nat var_x (-1)) (env_xy None None) state_le
    (fun _ s' =>
       exists d',
         is_linexpr s' 1%nat obj_le d' /\ keys_nodup d' /\
         dict_get Var_key_eqb d' var_x =
           after_add_var (EPS (env_xy None None))
             (dict_get Var_key_eqb items_xy var_x) (-1) /\
         forall w, idx w <> idx var_x ->
                   dict_get Var_key_eqb d' w = dict_get Var_key_eqb items_xy w).
Proof.
  assert (Hk : known_to items_xy var_x) by (apply known_to_items_xy; auto).
  split; [apply state_le_is_linexpr |]. split; [apply items_xy_nodup |].
  split; [exact Hk |].
  apply (add_var_lookup_and_frame _ _ _ _ _ _ _ state_le_is_linexpr
           items_xy_nodup Hk).
Defined.

(** X2.  When every variable has a value but the sense is none of [=],
    [<], [>] (the empty sense of an objective, for one), [violation]
    raises [ValueError]; the heap is left as it was. *)
Theorem violation_needs_a_sense E s l o d :
  is_linexpr s l o d -> all_known E d ->
  __sense o <> "="%string -> __sense o <> "<"%string ->
  __sense o <> ">"%string ->
  exists s', LinExpr.violation l E s = (Raise ValueError, s') /\
             heap s' = heap s.
Proof.
  intros Hl Hk H1 H2 H3.
  apply (violation_invalid_sense E s l o d Hl Hk); apply String.eqb_neq;
    assumption.
Qed.

Lemma violation_needs_a_sense_witness :
  is_linexpr state_plain 1%nat obj_plain items_xy /\
  all_known (env_xy (Some 7) (Some 5)) items_xy /\
  exists s', LinExpr.violation 1%nat (env_xy (Some 7) (Some 5)) state_plain =
             (Raise ValueError, s') /\ heap s' = heap state_plain.
Proof.
  split; [apply state_plain_is_linexpr |]. split; [apply items_xy_known |].
  apply (violation_needs_a_sense _ _ _ _ _ state_plain_is_linexpr
           (items_xy_known 7 5)); discriminate.
Defined.

(** X3.  For a constraint whose variables all have a value, [violation]
    is never negative, and it is zero exactly when the values satisfy the
    constraint [lhs sense rhs]. *)
Theorem violation_zero_iff_satisfied E s l o d :
  is_linexpr s l o d -> all_known E d ->
  (__sense o = "=" \/ __sense o = "<" \/ __sense o = ">")%string ->
  returns (LinExpr.violation l) E s
    (fun r _ => 0 <= r /\ (r == 0 <-> satisfied E o d)).
Proof.
  intros Hl Hk Hs.
  eapply returns_mono; [apply (violation_returns _ _ _ _ _ Hl Hk Hs) |].
  intros r s' [Hr _]. cbn beta. split.
  - rewrite Hr. apply spec_violation_nonneg.
  - rewrite Hr. apply spec_violation_zero_iff.
Qed.

Lemma violation_zero_iff_satisfied_witness :
  is_linexpr state_le 1%nat obj_le items_xy /\
  all_known (env_xy (Some 4) (Some 5)) items_xy /\
  returns (LinExpr.violation 1%nat) (env_xy (Some 4) (Some 5)) state_le
    (fun r _ =>
       0 <= r /\
       (r == 0 <-> satisfied (env_xy (Some 4) (Some 5)) obj_le items_xy)).
Proof.
  split; [apply state_le_is_linexpr |]. split; [apply items_xy_known |].
  apply (violation_zero_iff_satisfied _ _ _ _ _ state_le_is_linexpr
           (items_xy_known 4 5)).
  right. left. reflexivity.
Defined.

(** X4.  When every variable has a value, [x] returns a number, the
    constant plus the sum of coefficient times value. *)
Theorem x_is_const_plus_sum E s l o d :
  is_linexpr s l o d -> all_known E d ->
  returns (LinExpr.x l) E s
    (fun r _ => exists q, r = Some q /\ q == __const o + spec_lhs E d).
Proof.
  intros Hl Hk.
  eapply returns_mono; [apply (x_returns _ _ _ _ _ Hl) |].
  intros r s' [-> _]. apply x_value_known, Hk.
Qed.

Lemma x_is_const_plus_sum_witness :
  is_linexpr state_le 1%nat obj_le items_xy /\
  all_known (env_xy (Some 7) (Some 5)) items_xy /\
  returns (LinExpr.x 1%nat) (env_xy (Some 7) (Some 5)) state_le
    (fun r _ =>
       exists q, r = Some q /\
                 q == __const obj_le +
                      spec_lhs (env_xy (Some 7) (Some 5)) items_xy).
Proof.
  split; [apply state_le_is_linexpr |]. split; [apply items_xy_known |].
  apply (x_is_const_plus_sum _ _ _ _ _ state_le_is_linexpr (items_xy_known 7 5)).
Defined.



(** X6.  [self + other] and [self - other] with [other] a string or
    [None] raise [TypeError]; the copy made before the test is all that is
    added to the heap, and [self] is left as it was. *)
Theorem add_and_sub_reject_other_types E s self o d other :
  is_linexpr s self o d -> unsupported other ->
  (exists s', LinExpr.__add__ self other E s = (Raise TypeError, s') /\
              extends s s' /\ is_linexpr s' self o d) /\
  (exists s', LinExpr.__sub__ self other E s = (Raise TypeError, s') /\
              extends s s' /\ is_linexpr s' self o d).
Proof.
  intros Hl Hu.
  destruct (add_unsupported_run E s self o d other Hl Hu) as [Ha Hs].
  split; eexists; (split; [eassumption |]);
    (split; [apply extends_grow |]);
    (eapply is_linexpr_extends; [exact Hl | apply extends_grow]).
Qed.

Lemma add_and_sub_reject_witness :
  is_linexpr state_le 1%nat obj_le items_xy /\
  unsupported PyNone /\
  exists s', LinExpr.__add__ 1%nat PyNone (env_xy None None) state_le =
             (Raise TypeError, s') /\
             extends state_le s' /\ is_linexpr s' 1%nat obj_le items_xy.
Proof.
  split; [apply state_le_is_linexpr |]. split; [exact I |].
  apply (proj1 (add_and_sub_reject_other_types (env_xy None None) _ _ _ _ PyNone
                  state_le_is_linexpr I)).
Defined.





(** X9.  With [mip.EPS] not negative, [e - e] is a new expression without
    terms and with constant zero; [e] is left as it was. *)
Theorem expression_minus_itself E s e o d :
  0 <= EPS E -> is_linexpr s e o d ->
  returns (LinExpr.__sub__ e (PyLinExpr e)) E s
    (fun r s' =>
       exists c, allocated s s' r c [] (__sense o) /\ c == 0 /\
                 is_linexpr s' e o d).
Proof.
  intros He Hl.
  assert (Ht : denotes s (PyLinExpr e) (Op_expr (__const o) d)).
  { exists o. split; [exact Hl | reflexivity]. }
  eapply returns_mono;
    [apply (sub_returns E s e o d _ _ Hl Ht) |].
  intros r s' (Ha & Hl' & _). cbn [subtracted fst snd] in Ha.
  rewrite add_expr_items_self in Ha by exact He.
  eexists. split; [exact Ha |]. split; [lra | exact Hl'].
Qed.

Lemma expression_minus_itself_witness :
  0 <= EPS (env_xy None None) /\
  is_linexpr state_le 1%nat obj_le items_xy /\
  returns (LinExpr.__sub__ 1%nat (PyLinExpr 1%nat)) (env_xy None None) state_le
    (fun r s' =>
       exists c, allocated state_le s' r c [] "<" /\ c == 0 /\
                 is_linexpr s' 1%nat obj_le items_xy).
Proof.
  assert (H : 0 <= EPS (env_xy None None)) by discriminate.
  split; [exact H |]. split; [apply state_le_is_linexpr |].
  apply (expression_minus_itself _ _ _ _ _ H state_le_is_linexpr).
Defined.

(** X10.  With [mip.EPS] not negative, [e -= e] on an expression with at
    least one term raises [RuntimeError]: the first term cancels and is
    deleted from the mapping that is being iterated over.  The constant
    has been set to [c - c] by then, and the first term is gone. *)
Theorem isub_with_itself_raises E s e o d :
  0 <= EPS E -> is_linexpr s e o d -> d <> [] ->
  exists s',
    LinExpr.__isub__ e (PyLinExpr e) E s = (Raise RuntimeError, s') /\
    is_linexpr s' e
      (mkLinExpr (__const o + __const o * -1) (__expr o) (__sense o))
      (tail d).
Proof.
  intros He Hl Hne. destruct d as [|[v c0] d]; [congruence |].
  destruct o as [c r sn]. eexists. split.
  - apply (isub_self_run E s e c r sn v c0 d He Hl).
  - cbn [tail __const __expr __sense].
    apply (is_linexpr_upd_dict _ e (mkLinExpr _ r sn) ((v, c0) :: d)).
    apply (is_linexpr_upd_obj s e _ _ _ Hl). reflexivity.
Qed.

Lemma isub_with_itself_witness :
  0 <= EPS (env_xy None None) /\
  is_linexpr state_le 1%nat obj_le items_xy /\ items_xy <> [] /\
  exists s',
    LinExpr.__isub__ 1%nat (PyLinExpr 1%nat) (env_xy None None) state_le =
    (Raise RuntimeError, s') /\
    is_linexpr s' 1%nat
      (mkLinExpr (__const obj_le + __const obj_le * -1) (__expr obj_le)
                 (__sense obj_le))
      (tail items_xy).
Proof.
  assert (H : 0 <= EPS (env_xy None None)) by discriminate.
  assert (Hne : items_xy <> []) by discriminate.
  split; [exact H |]. split; [apply state_le_is_linexpr |].
  split; [exact Hne |].
  apply (isub_with_itself_raises _ _ _ _ _ H state_le_is_linexpr Hne).
Defined.

(** X11.  [self * q] is a new expression with the sense of [self], the
    constant times [q] and every coefficient times [q], in the same
    order; no term is dropped, whatever [q] is, and [self] is left as it
    was. *)
Theorem mul_scales_every_term E s self o d q :
  is_linexpr s self o d -> keys_nodup d ->
  returns (LinExpr.__mul__ self (PyReal q)) E s
    (fun r s' =>
       allocated s s' r (__const o * q)
         (map (fun it => (fst it, snd it * q)) d) (__sense o) /\
       is_linexpr s' self o d).
Proof.
  intros Hl Hnd.
  eapply returns_mono; [apply (mul_returns E s self o d q Hl Hnd) |].
  intros r s' Ha. split; [exact Ha |].
  eapply is_linexpr_extends; [exact Hl | apply Ha].
Qed.

Lemma mul_scales_every_term_witness :
  is_linexpr state_le 1%nat obj_le items_xy /\ keys_nodup items_xy /\
  returns (LinExpr.__mul__ 1%nat (PyReal 3)) (env_xy None None) state_le
    (fun r s' =>
       allocated state_le s' r (__const obj_le * 3)
         (map (fun it => (fst it, snd it * 3)) items_xy) (__sense obj_le) /\
       is_linexpr s' 1%nat obj_le items_xy).
Proof.
  split; [apply state_le_is_linexpr |]. split; [apply items_xy_nodup |].
  apply (mul_scales_every_term _ _ _ _ _ 3 state_le_is_linexpr items_xy_nodup).
Defined.

(** X12.  Multiplication does not keep the mapping sparse: [self * 0] has
    as many terms as [self], each with a coefficient equal to zero. *)
Theorem mul_by_zero_keeps_the_terms E s self o d :
  is_linexpr s self o d -> keys_nodup d ->
  returns (LinExpr.__mul__ self (PyReal 0)) E s
    (fun r s' =>
       exists o' d',
         is_linexpr s' r o' d' /\ length d' = length d /\
         (forall v c, In (v, c) d' -> c == 0) /\
         (d <> [] -> ~ sparse d')).
Proof.
  intros Hl Hnd.
  eapply returns_mono; [apply (mul_returns E s self o d 0 Hl Hnd) |].
  intros r s' (_ & _ & _ & rr & _ & Hr). cbn beta.
  eexists _, _. split; [exact Hr |].
  assert (Hz : forall v c, In (v, c) (scale_items 0 d) -> c == 0).
  { intros v c Hin. unfold scale_items in Hin. apply in_map_iff in Hin.
    destruct Hin as ([v0 c0] & Heq & _). injection Heq as _ <-. cbn. lra. }
  split; [unfold scale_items; apply length_map |]. split; [exact Hz |].
  intros Hne Hsp. destruct d as [|[v c] d]; [congruence |].
  unfold sparse in Hsp. cbn in Hsp. apply Forall_cons in Hsp.
  destruct Hsp as [Hsp _]. cbn [snd] in Hsp.
  assert (H0 : c * 0 == 0) by lra. rewrite H0 in Hsp.
  change (Qabs 0) with 0 in Hsp. unfold tol in Hsp. lra.
Qed.

Lemma mul_by_zero_witness :
  is_linexpr state_le 1%nat obj_le items_xy /\ keys_nodup items_xy /\
  returns (LinExpr.__mul__ 1%nat (PyReal 0)) (env_xy None None) state_le
    (fun r s' =>
       exists o' d',
         is_linexpr s' r o' d' /\ length d' = length items_xy /\
         (forall v c, In (v, c) d' -> c == 0) /\
         (items_xy <> [] -> ~ sparse d')).
Proof.
  split; [apply state_le_is_linexpr |]. split; [apply items_xy_nodup |].
  apply (mul_by_zero_keeps_the_terms _ _ _ _ _ state_le_is_linexpr items_xy_nodup).
Defined.

(** X14.  Negating twice gives back an expression equal to the first:
    [(-(-e)).equals(e)] returns [True]. *)
Theorem double_negation_equals E s e o d :
  is_linexpr s e o d -> keys_nodup d ->
  returns
    (n <- LinExpr.__neg__ e ;; nn <- LinExpr.__neg__ n ;; LinExpr.equals nn e)
    E s (fun b _ => b = true).
Proof.
  intros Hl Hnd. unfold LinExpr.__neg__.
  apply returns_bind.
  eapply returns_mono; [apply (mul_returns E s e o d (-1) Hl Hnd) |].
  intros n s1 (Hx & _ & _ & rn & _ & Hn). cbn beta.
  apply returns_bind.
  eapply returns_mono.
  { apply (mul_returns E s1 n _ _ (-1) Hn). now apply keys_nodup_scale_items. }
  intros nn s2 (Hx2 & _ & _ & rnn & _ & Hnn). cbn beta.
  cbn [__const __sense] in Hnn.
  pose proof (is_linexpr_extends _ _ _ _ _ Hl (extends_trans _ _ _ Hx Hx2)) as Hl2.
  eapply returns_eq; [apply (equals_run _ _ _ _ _ _ _ _ Hnn Hl2) |].
  apply equals_value_pointwise.
  - exact Hnd.
  - unfold scale_items. now rewrite !length_map.
  - reflexivity.
  - cbn [__const]. lra.
  - intros v c Hin. unfold scale_items in Hin. rewrite map_map in Hin.
    apply in_map_iff in Hin. destruct Hin as ([v0 c0] & Heq & Hin0).
    cbn [fst snd] in Heq. injection Heq as <- <-.
    exists v0, c0. split; [exact Hin0 |]. split; [reflexivity | lra].
Qed.

Lemma double_negation_witness :
  is_linexpr state_le 1%nat obj_le items_xy /\ keys_nodup items_xy /\
  returns
    (n <- LinExpr.__neg__ 1%nat ;; nn <- LinExpr.__neg__ n ;;
     LinExpr.equals nn 1%nat)
    (env_xy None None) state_le (fun b _ => b = true).
Proof.
  split; [apply state_le_is_linexpr |]. split; [apply items_xy_nodup |].
  apply (double_negation_equals _ _ _ _ _ state_le_is_linexpr items_xy_nodup).
Defined.

(** X15.  [equals] is symmetric: on two expressions whose mappings have
    pairwise different keys, [a.equals(b)] and [b.equals(a)] return the
    same answer, and neither changes the state. *)
Theorem equals_is_symmetric E s a oa da b ob db :
  is_linexpr s a oa da -> is_linexpr s b ob db ->
  keys_nodup da -> keys_nodup db ->
  exists r, LinExpr.equals a b E s = (Ok r, s) /\
            LinExpr.equals b a E s = (Ok r, s).
Proof.
  intros Ha Hb Hna Hnb. exists (equals_value oa da ob db). split.
  - apply equals_run; assumption.
  - rewrite (equals_value_sym oa da ob db Hna Hnb). apply equals_run; assumption.
Qed.

Lemma equals_is_symmetric_witness :
  is_linexpr state_two 1%nat obj_le items_xy /\
  is_linexpr state_two 3%nat obj_yx items_yx /\
  keys_nodup items_xy /\ keys_nodup items_yx /\
  exists r, LinExpr.equals 1%nat 3%nat (env_xy None None) state_two =
            (Ok r, state_two) /\
            LinExpr.equals 3%nat 1%nat (env_xy None None) state_two =
            (Ok r, state_two).
Proof.
  split; [apply state_two_first |]. split; [apply state_two_second |].
  split; [apply items_xy_nodup |]. split; [apply items_yx_nodup |].
  apply (equals_is_symmetric _ _ _ _ _ _ _ _ state_two_first
           state_two_second items_xy_nodup items_yx_nodup).
Defined.

(** X16.  What a [True] from [equals] means, and conversely: the senses
    are the same, the mappings have the same number of terms, the
    constants differ by less than [1e-12], and every term of the first
    has a term of the second under the same index with a coefficient at
    most [1e-12] away. *)
Theorem equals_meaning E s a oa da b ob db :
  is_linexpr s a oa da -> is_linexpr s b ob db -> keys_nodup db ->
  returns (LinExpr.equals a b) E s
    (fun r _ =>
       r = true <->
       (__sense oa = __sense ob /\ length da = length db /\
        Qabs (__const oa - __const ob) < tol /\ matched da db)).
Proof.
  intros Ha Hb Hnb.
  eapply returns_eq; [apply (equals_run _ _ _ _ _ _ _ _ Ha Hb) |].
  unfold equals_value.
  destruct (String.eqb (__sense oa) (__sense ob)) eqn:Hs; cbn [negb].
  - apply String.eqb_eq in Hs.
    destruct (length da =? length db)%nat eqn:Hlen; cbn [negb].
    + apply Nat.eqb_eq in Hlen.
      destruct (Qle_bool tol (Qabs (__const oa - __const ob))) eqn:Hc.
      * apply Qle_bool_iff in Hc. split; [discriminate |].
        intros (_ & _ & Hlt & _). lra.
      * rewrite (equals_loop_matched da db Hnb). split.
        -- intros Hm. repeat split; try assumption.
           apply Qnot_le_lt. intros Hle. apply Qle_bool_iff in Hle. congruence.
        -- intros (_ & _ & _ & Hm). exact Hm.
    + apply Nat.eqb_neq in Hlen. split; [discriminate |].
      intros (_ & Hl & _). contradiction.
  - apply String.eqb_neq in Hs. split; [discriminate |].
    intros (Hs' & _). contradiction.
Qed.

Lemma equals_meaning_witness :
  is_linexpr state_two 1%nat obj_le items_xy /\
  is_linexpr state_two 3%nat obj_yx items_yx /\ keys_nodup items_yx /\
  returns (LinExpr.equals 1%nat 3%nat) (env_xy None None) state_two
    (fun r _ =>
       r = true <->
       (__sense obj_le = __sense obj_yx /\ length items_xy = length items_yx /\
        Qabs (__const obj_le - __const obj_yx) < tol /\
        matched items_xy items_yx)).
Proof.
  split; [apply state_two_first |]. split; [apply state_two_second |].
  split; [apply items_yx_nodup |].
  apply (equals_meaning _ _ _ _ _ _ _ _ state_two_first state_two_second
           items_yx_nodup).
Defined.

(** X17.  [add_term(term, coeff)] does not apply [coeff] to a number:
    [add_term(q, coeff)] adds [q] to the constant, while for an expression
    [e] without terms and with constant [q] (another object than the
    receiver) [add_term(e, coeff)] adds [q * coeff].  In both cases the
    items are left as they were.  A string or [None] raises [TypeError]
    and changes nothing. *)
Theorem add_term_does_not_scale_numbers E s l o d coeff :
  is_linexpr s l o d ->
  (forall q,
     returns (LinExpr.add_term l (PyReal q) coeff) E s
       (fun _ s' =>
          is_linexpr s' l
            (mkLinExpr (__const o + q) (__expr o) (__sense o)) d)) /\
  (forall e oe,
     is_linexpr s e oe [] -> e <> l -> __expr oe <> __expr o ->
     returns (LinExpr.add_term l (PyLinExpr e) coeff) E s
       (fun _ s' =>
          is_linexpr s' l
            (mkLinExpr (__const o + __const oe * coeff) (__expr o) (__sense o))
            d)) /\
  (forall other, unsupported other ->
     LinExpr.add_term l other coeff E s = (Raise TypeError, s)).
Proof.
  intros Hl. split; [| split].
  - intros q. cbn [LinExpr.add_term].
    eapply returns_eq; [apply (add_const_run E s l o q (proj1 Hl)) |].
    apply (is_linexpr_upd_obj s l o d _ Hl). reflexivity.
  - intros e oe He Hne Hner. cbn [LinExpr.add_term].
    eapply returns_eq.
    { apply (add_expr_run E s l o d e oe [] coeff Hl He); congruence. }
    cbn [add_expr_items fold_left].
    apply (is_linexpr_upd_dict _ l (mkLinExpr _ (__expr o) _) d).
    apply (is_linexpr_upd_obj s l o d _ Hl). reflexivity.
  - intros other Hu. destruct other; cbn in Hu; try contradiction; reflexivity.
Qed.

Lemma add_term_witness :
  is_linexpr state_le 1%nat obj_le items_xy /\
  returns (LinExpr.add_term 1%nat (PyReal 5) 3) (env_xy None None) state_le
    (fun _ s' =>
       is_linexpr s' 1%nat
         (mkLinExpr (__const obj_le + 5) (__expr obj_le) (__sense obj_le))
         items_xy).
Proof.
  split; [apply state_le_is_linexpr |].
  apply (proj1 (add_term_does_not_scale_numbers (env_xy None None) _ _ _ _ 3
                  state_le_is_linexpr)).
Defined.

(** X18.  With [mip.EPS] not negative, [x <= y], [x == y], [x >= y] and
    [x - y] on two variable handles, which are one handle or two that a
    mapping tells apart by their hashes, build the expression with
    constant [0], the sense of the operator (none for [-]) and the items
    [{x: 1, y: -1}], in this order, when the indices differ; when the
    index is the same, [y] is [x], the two terms cancel and the mapping
    is empty. *)
Theorem var_compared_with_var E s x y :
  0 <= EPS E -> distinguishable x y ->
  let items := if (idx x =? idx y)%Z then [] else [(x, 1); (y, -1)] in
  returns (Var.__le__ x (PyVar y)) E s
    (fun r s' => allocated s s' r 0 items "<") /\
  returns (Var.__eq__ x (PyVar y)) E s
    (fun r s' => allocated s s' r 0 items "=") /\
  returns (Var.__ge__ x (PyVar y)) E s
    (fun r s' => allocated s s' r 0 items ">") /\
  returns (Var.__sub__ x (PyVar y)) E s
    (fun r s' => allocated s s' r 0 items "").
Proof.
  intros He _ items. repeat split;
    (eapply returns_eq; [apply (var_relation_var_run E s x y _ He) |]);
    apply allocated_grow2.
Qed.

Lemma var_compared_with_var_witness :
  0 <= EPS (env_xy None None) /\ distinguishable var_x var_y /\
  returns (Var.__le__ var_x (PyVar var_y)) (env_xy None None) empty_state
    (fun r s' => allocated empty_state s' r 0 [(var_x, 1); (var_y, -1)] "<").
Proof.
  assert (H : 0 <= EPS (env_xy None None)) by discriminate.
  split; [exact H |]. split; [exact distinguishable_xy |].
  apply (proj1 (var_compared_with_var (env_xy None None) empty_state
                  var_x var_y H distinguishable_xy)).
Defined.

(** X19.  [x <= k], [x == k] and [x >= k] on a variable and a number build
    the expression [{x: 1}] with a constant equal to [-k] (also when [k] is
    zero, where the default constant is used) and the sense of the
    operator; its violation at a value [vx] of [x] is [max(vx - k, 0)],
    [|vx - k|] and [max(k - vx, 0)]. *)
Theorem var_compared_with_number E s x k vx :
  value_of E x = Some vx ->
  returns (c <- Var.__le__ x (PyReal k) ;; LinExpr.violation c) E s
    (fun r _ => r == Qmax (vx - k) 0) /\
  returns (c <- Var.__eq__ x (PyReal k) ;; LinExpr.violation c) E s
    (fun r _ => r == Qabs (vx - k)) /\
  returns (c <- Var.__ge__ x (PyReal k) ;; LinExpr.violation c) E s
    (fun r _ => r == Qmax (k - vx) 0).
Proof.
  intros Hx.
  assert (Hk : all_known E [(x, 1)]).
  { intros v c [Heq | []]. injection Heq as <- <-. congruence. }
  assert (Hl : spec_lhs E [(x, 1)] == vx).
  { unfold spec_lhs. cbn [fold_right fst snd]. rewrite Hx. lra. }
  split; [| split].
  - cbn [Var.__le__].
    destruct (var_relation_real_run E s x k "<") as (c & Hc & Hrun).
    eapply returns_step; [exact Hrun |].
    eapply returns_mono.
    { apply (violation_returns E _ _ _ _ (is_linexpr_grow_new s c "<" _ []) Hk).
      right. left. reflexivity. }
    intros r s' [Hr _]. cbn beta. rewrite Hr.
    unfold spec_violation. cbn [__sense __const String.eqb Ascii.eqb Bool.eqb].
    destruct (Q.max_spec (spec_lhs E [(x, 1)] - - c) 0) as [[? ->] | [? ->]];
      destruct (Q.max_spec (vx - k) 0) as [[? ->] | [? ->]]; lra.
  - cbn [Var.__eq__].
    destruct (var_relation_real_run E s x k "=") as (c & Hc & Hrun).
    eapply returns_step; [exact Hrun |].
    eapply returns_mono.
    { apply (violation_returns E _ _ _ _ (is_linexpr_grow_new s c "=" _ []) Hk).
      left. reflexivity. }
    intros r s' [Hr _]. cbn beta. rewrite Hr.
    unfold spec_violation. cbn [__sense __const String.eqb Ascii.eqb Bool.eqb].
    apply Qabs_wd. lra.
  - cbn [Var.__ge__].
    destruct (var_relation_real_run E s x k ">") as (c & Hc & Hrun).
    eapply returns_step; [exact Hrun |].
    eapply returns_mono.
    { apply (violation_returns E _ _ _ _ (is_linexpr_grow_new s c ">" _ []) Hk).
      right. right. reflexivity. }
    intros r s' [Hr _]. cbn beta. rewrite Hr.
    unfold spec_violation. cbn [__sense __const String.eqb Ascii.eqb Bool.eqb].
    destruct (Q.max_spec (- c - spec_lhs E [(x, 1)]) 0) as [[? ->] | [? ->]];
      destruct (Q.max_spec (k - vx) 0) as [[? ->] | [? ->]]; lra.
Qed.

Lemma var_compared_with_number_witness :
  value_of (env_xy (Some 7) None) var_x = Some 7 /\
  returns (c <- Var.__le__ var_x (PyReal 0) ;; LinExpr.violation c)
    (env_xy (Some 7) None) empty_state
    (fun r _ => r == Qmax (7 - 0) 0).
Proof.
  split; [reflexivity |].
  apply (proj1 (var_compared_with_number (env_xy (Some 7) None) empty_state
                  var_x 0 7 eq_refl)).
Defined.

(** X20.  A variable compared with an expression, in whose mapping a key
    with the hash of [x] is [x] itself, hands the comparison to the
    expression, mirrored: [x <= e] is stored as [e - x] with sense [>],
    [x >= e] as [e - x] with sense [<], and [x == e] as [e - x] with
    sense [=]; [e] is left as it was. *)
Theorem var_compared_with_expression E s x e o d :
  is_linexpr s e o d -> known_to d x ->
  returns (Var.__le__ x (PyLinExpr e)) E s
    (fun r s' =>
       allocated s s' r (__const o) (add_var_items (EPS E) d x (-1)) ">" /\
       is_linexpr s' e o d) /\
  returns (Var.__ge__ x (PyLinExpr e)) E s
    (fun r s' =>
       allocated s s' r (__const o) (add_var_items (EPS E) d x (-1)) "<" /\
       is_linexpr s' e o d) /\
  returns (Var.__eq__ x (PyLinExpr e)) E s
    (fun r s' =>
       allocated s s' r (__const o) (add_var_items (EPS E) d x (-1)) "=" /\
       is_linexpr s' e o d).
Proof.
  intros Hl _. repeat split.
  - apply (relational_returns E s e o d (PyVar x) (Op_var x) ">" LinExpr.__ge__);
      [reflexivity | exact Hl | reflexivity].
  - apply (relational_returns E s e o d (PyVar x) (Op_var x) "<" LinExpr.__le__);
      [reflexivity | exact Hl | reflexivity].
  - apply (relational_returns E s e o d (PyVar x) (Op_var x) "=" LinExpr.__eq__);
      [reflexivity | exact Hl | reflexivity].
Qed.

Lemma var_compared_with_expression_witness :
  is_linexpr state_le 1%nat obj_le items_xy /\ known_to items_xy var_x /\
  returns (Var.__le__ var_x (PyLinExpr 1%nat)) (env_xy None None) state_le
    (fun r s' =>
       allocated state_le s' r (__const obj_le)
         (add_var_items (EPS (env_xy None None)) items_xy var_x (-1)) ">" /\
       is_linexpr s' 1%nat obj_le items_xy).
Proof.
  assert (Hk : known_to items_xy var_x) by (apply known_to_items_xy; auto).
  split; [apply state_le_is_linexpr |]. split; [exact Hk |].
  apply (proj1 (var_compared_with_expression (env_xy None None) _ var_x _ _ _
                  state_le_is_linexpr Hk)).
Defined.

(** X21.  With [mip.EPS] not negative and [x1], [x2] of different
    indices, let [e = c1*x1 - c2*x2 + k] and [e2 = e + x2*c2].  Then [e]
    still holds [-c2] for [x2] (nothing, if [|c2| <= 1e-12] was pruned),
    while [e2] has exactly the items of [c1*x1]: the term in [x2] has
    cancelled.  Both constants equal [k]. *)
Theorem terms_cancel_through_operators E s x1 x2 c1 c2 k :
  0 <= EPS E -> idx x1 <> idx x2 ->
  returns (cancel_through_operators x1 x2 c1 c2 k) E s
    (fun p s' =>
       exists oe de o2,
         is_linexpr s' (fst p) oe de /\
         is_linexpr s' (snd p) o2 (init_items (EPS E) [x1] [c1]) /\
         __const oe == k /\ __const o2 == k /\
         dict_get Var_key_eqb de x2 =
           (if Qle_bool (Qabs c2) tol then None else Some (c2 * -1)) /\
         dict_get Var_key_eqb (init_items (EPS E) [x1] [c1]) x2 = None).
Proof.
  intros He Hne. unfold cancel_through_operators.
  apply returns_bind. eapply returns_mono; [apply rmul_returns |].
  intros a s1 (_ & _ & _ & ra & _ & Ha). cbn beta.
  apply returns_bind. eapply returns_mono; [apply rmul_returns |].
  intros b s2 (X2 & _ & _ & rb & _ & Hb). cbn beta.
  pose proof (is_linexpr_extends _ _ _ _ _ Ha X2) as Ha2.
  apply returns_bind.
  eapply returns_mono;
    [apply (sub_returns E s2 a _ _ _ _ Ha2 (denotes_expr _ _ _ _ Hb)) |].
  intros d s3 ((_ & _ & _ & rd & _ & Hd) & _ & _). cbn beta.
  cbn [subtracted fst snd __const __sense] in Hd.
  apply returns_bind.
  eapply returns_mono;
    [apply (add_returns E s3 d _ _ (PyReal k) (Op_real k) Hd eq_refl) |].
  intros e s4 ((_ & _ & _ & re & _ & Hle) & _ & _). cbn beta.
  cbn [added fst snd __const __sense] in Hle.
  apply returns_bind. eapply returns_mono; [apply mul_var_returns |].
  intros t s5 (X5 & _ & _ & rt & _ & Ht). cbn beta.
  pose proof (is_linexpr_extends _ _ _ _ _ Hle X5) as Hle5.
  apply returns_bind.
  eapply returns_mono;
    [apply (add_returns E s5 e _ _ _ _ Hle5 (denotes_expr _ _ _ _ Ht)) |].
  intros e2 s6 ((_ & _ & _ & r2 & _ & H2) & Hle6 & _). cbn beta.
  cbn [added fst snd __const __sense] in H2.
  rewrite (cancel_items (EPS E) x1 x2 c1 c2 He Hne) in H2.
  apply returns_ret. cbn [fst snd].
  eexists _, _, _. split; [exact Hle6 |]. split; [exact H2 |].
  cbn [__const]. split; [lra |]. split; [lra |].
  split; [now apply minuend_lookup | now apply init_items_single_lookup_other].
Qed.

Lemma terms_cancel_witness :
  0 <= EPS (env_xy None None) /\ idx var_x <> idx var_y /\
  returns (cancel_through_operators var_x var_y 3 2 5) (env_xy None None)
    empty_state
    (fun p s' =>
       exists oe de o2,
         is_linexpr s' (fst p) oe de /\
         is_linexpr s' (snd p) o2 (init_items tol [var_x] [3]) /\
         __const oe == 5 /\ __const o2 == 5 /\
         dict_get Var_key_eqb de var_y =
           (if Qle_bool (Qabs 2) tol then None else Some (2 * -1)) /\
         dict_get Var_key_eqb (init_items tol [var_x] [3]) var_y = None).
Proof.
  assert (H : 0 <= EPS (env_xy None None)) by discriminate.
  assert (Hne : idx var_x <> idx var_y) by discriminate.
  split; [exact H |]. split; [exact Hne |].
  apply (terms_cancel_through_operators (env_xy None None) empty_state
           var_x var_y 3 2 5 H Hne).
Defined.

(** X23.  [k - e], computed by [LinExpr.__rsub__] as [(-e) + k], is equal
    for [equals] to [-(e - k)]. *)
Theorem number_minus_expression_equals E s e o d k :
  is_linexpr s e o d -> keys_nodup d ->
  returns (number_minus_expression e k) E s (fun b _ => b = true).
Proof.
  intros Hl Hnd. unfold number_minus_expression, LinExpr.__rsub__, LinExpr.__neg__.
  apply returns_bind. apply returns_bind.
  eapply returns_mono; [apply (mul_returns E s e o d (-1) Hl Hnd) |].
  intros n s1 (X1 & _ & _ & rn & _ & Hn). cbn beta.
  eapply returns_mono;
    [apply (add_returns E s1 n _ _ (PyReal k) (Op_real k) Hn eq_refl) |].
  intros a s2 ((X2 & _ & _ & ra & _ & Ha) & _ & _). cbn beta.
  cbn [added fst snd __const __sense] in Ha.
  pose proof (is_linexpr_extends _ _ _ _ _ Hl (extends_trans _ _ _ X1 X2)) as Hl2.
  apply returns_bind.
  eapply returns_mono;
    [apply (sub_returns E s2 e o d (PyReal k) (Op_real k) Hl2 eq_refl) |].
  intros b s3 ((X3 & _ & _ & rb & _ & Hb) & _ & _). cbn beta.
  cbn [subtracted fst snd] in Hb.
  apply returns_bind.
  eapply returns_mono; [apply (mul_returns E s3 b _ _ (-1) Hb Hnd) |].
  intros nb s4 (X4 & _ & _ & rnb & _ & Hnb). cbn beta.
  cbn [__const __sense] in Hnb.
  pose proof (is_linexpr_extends _ _ _ _ _ Ha (extends_trans _ _ _ X3 X4)) as Ha4.
  eapply returns_eq; [apply (equals_run _ _ _ _ _ _ _ _ Ha4 Hnb) |].
  apply equals_value_same_items;
    [now apply keys_nodup_scale_items | cbn [__const]; lra | reflexivity].
Qed.

Lemma number_minus_expression_witness :
  is_linexpr state_le 1%nat obj_le items_xy /\ keys_nodup items_xy /\
  returns (number_minus_expression 1%nat 4) (env_xy None None) state_le
    (fun b _ => b = true).
Proof.
  split; [apply state_le_is_linexpr |]. split; [apply items_xy_nodup |].
  apply (number_minus_expression_equals _ _ _ _ _ 4 state_le_is_linexpr
           items_xy_nodup).
Defined.

(** X24.  [ConflictGraph.conflicting_assignments] raises [TypeError] on
    every argument, a variable or an expression included, whatever the
    solver would answer, and leaves the state as it was: like
    [conflicting], it gives [isinstance] a list of classes. *)
Theorem conflicting_assignments_always_raises nodes E s v1 :
  ConflictGraph.conflicting_assignments nodes v1 E s = (Raise TypeError, s).
Proof.
  unfold ConflictGraph.conflicting_assignments.
  apply bind_raise. unfold lift.
  now rewrite isinstance_list_raises.
Qed.

(** X25.  [Column] does not check that its two lists have one length, and
    [str] shows it.  With at least as many coefficients as constraints,
    [str] is ["[c1 n1, c2 n2, ...]"] over the constraints, and coefficients
    beyond them are not shown; with fewer coefficients it raises
    [IndexError]; on [Column()], whose lists are [None], it raises
    [TypeError]. *)
Theorem column_str fmt name :
  (forall cs co,
     (length cs <= length co)%nat ->
     Column.__str__ fmt name (Column.__init__ (Some cs) (Some co)) =
     Ok ("[" ++ String.concat ", " (zip_with (column_item fmt name) cs co)
             ++ "]")%string) /\
  (forall cs co,
     (length co < length cs)%nat ->
     Column.__str__ fmt name (Column.__init__ (Some cs) (Some co)) =
     Raise IndexError) /\
  (forall co, Column.__str__ fmt name (Column.__init__ None co) =
              Raise TypeError).
Proof.
  split; [| split].
  - intros cs co Hlen. unfold Column.__str__, Column.__init__.
    cbn [Column.constrs Column.coeffs].
    pose proof (column_str_loop fmt name cs co cs [] [] co "[" eq_refl
                  eq_refl eq_refl Hlen) as Hloop.
    change (length (@nil Z)) with 0%nat in Hloop.
    rewrite Hloop. now rewrite string_app_assoc.
  - intros cs co Hlen. unfold Column.__str__, Column.__init__.
    cbn [Column.constrs Column.coeffs].
    pose proof (column_str_loop_short fmt name cs co cs [] [] co "[" eq_refl
                  eq_refl eq_refl Hlen) as Hloop.
    change (length (@nil Z)) with 0%nat in Hloop.
    now rewrite Hloop.
  - reflexivity.
Qed.

Lemma column_str_witness :
  (length [0%Z; 1%Z] <= length [2; 3; 4])%nat /\
  Column.__str__ (fun _ => "c"%string) (fun _ => "n"%string)
    (Column.__init__ (Some [0%Z; 1%Z]) (Some [2; 3; 4])) =
  Ok "[c n, c n]"%string.
Proof.
  assert (H : (length [0%Z; 1%Z] <= length [2; 3; 4])%nat) by (cbn; lia).
  split; [exact H |].
  apply (proj1 (column_str (fun _ => "c"%string) (fun _ => "n"%string))
           [0%Z; 1%Z] [2; 3; 4] H).
Defined.

(** X26.  [self *= q] works in place: it returns [self], whose constant and
    every coefficient are multiplied by [q], with the keys, their order and
    the sense kept; no object is created and no other object changes.  With
    anything but a number it raises [TypeError] and changes nothing. *)
Theorem imul_scales_the_receiver E s self o d :
  is_linexpr s self o d -> keys_nodup d ->
  (forall q,
     returns (LinExpr.__imul__ self (PyReal q)) E s
       (fun r s' =>
          r = self /\
          is_linexpr s' self
            (mkLinExpr (__const o * q) (__expr o) (__sense o))
            (scale_items q d) /\
          length (heap s') = length (heap s) /\
          only_changes s s' self o)) /\
  (forall other,
     (forall q, other <> PyReal q) ->
     LinExpr.__imul__ self other E s = (Raise TypeError, s)).
Proof.
  intros Hl Hnd. split.
  - intros q. eapply returns_eq; [apply (imul_run E s self o d q Hl Hnd) |].
    split; [reflexivity |]. split; [| split; [| split]].
    + apply (is_linexpr_upd_dict _ self
               (mkLinExpr (__const o * q) (__expr o) (__sense o)) d).
      now apply (is_linexpr_upd_obj s self o d).
    + unfold upd, set_heap. cbn [heap]. now rewrite !length_insert.
    + reflexivity.
    + intros a Ha1 Ha2. now rewrite !lookup_upd_ne.
  - intros other Hno.
    destruct other as [v | e | q | t |]; try reflexivity.
    now destruct (Hno q).
Qed.

Lemma imul_witness :
  is_linexpr state_le 1%nat obj_le items_xy /\
  keys_nodup items_xy /\
  returns (LinExpr.__imul__ 1%nat (PyReal 3)) (env_xy None None) state_le
    (fun r s' =>
       r = 1%nat /\
       is_linexpr s' 1%nat (mkLinExpr (-10 * 3) 0%nat "<")
         (scale_items 3 items_xy) /\
       length (heap s') = length (heap state_le) /\
       only_changes state_le s' 1%nat obj_le).
Proof.
  split; [apply state_le_is_linexpr |]. split; [apply items_xy_nodup |].
  apply (proj1 (imul_scales_the_receiver (env_xy None None) _ _ _ _
                  state_le_is_linexpr items_xy_nodup) 3).
Defined.
